(** * WebServerC: a shallow embedding of [server.c]

    The request pipeline of the server (framing, request-line parsing,
    percent-decoding, resource resolution, MIME lookup, script output
    splitting, HTML escaping and response emission) is transcribed function
    by function from [server.c].

    Conventions of the embedding.
    - A [char] is an [ascii]; a buffer is a [list ascii] holding every byte
      of the allocation.
    - A C string passed as [const char*] is represented by its content, the
      bytes before the terminating NUL.  [cstr] reads that content out of a
      buffer; [c_string] does the same but reports when the buffer holds no
      terminator at all (the read would leave the allocation).
    - Pointers into a string are offsets ([nat]); pointer differences that
      the source stores in an [int] are computed in [Z].
    - Undefined behaviour (null dereference, access outside an allocation)
      is an explicit result ([PFault], [LFault], [Crash]).
    - [malloc], [realloc] and [calloc] are assumed to succeed and writes to
      the client socket are assumed not to fail.  What [malloc] returns for
      a request of no byte is left to the implementation, and is part of
      the environment. *)

From Stdlib Require Import Ascii String DecimalString.
From Stdlib Require Import List ZArith Lia Bool Arith PeanoNat.
Import ListNotations.

Local Open Scope list_scope.

(* ================================================================= *)
(** ** Characters and C strings *)

Definition cs (s : string) : list ascii := list_ascii_of_string s.

Definition NUL : ascii := ascii_of_nat 0.
Definition CR : ascii := ascii_of_nat 13.
Definition LF : ascii := ascii_of_nat 10.
Definition ESC : ascii := ascii_of_nat 27.
Definition DQUOTE : ascii := ascii_of_nat 34.
Definition SQUOTE : ascii := ascii_of_nat 39.
Definition CRLF : list ascii := [CR; LF].
Definition CRLFCRLF : list ascii := [CR; LF; CR; LF].

Definition is_nul (c : ascii) : bool := Ascii.eqb c NUL.

(** Equality of two strings ([strcmp(a, b) == 0]). *)
Fixpoint streq (a b : list ascii) : bool :=
  match a, b with
  | [], [] => true
  | x :: a', y :: b' => Ascii.eqb x y && streq a' b'
  | _, _ => false
  end.

(** Content of the C string stored at the start of a buffer. *)
Fixpoint cstr (buf : list ascii) : list ascii :=
  match buf with
  | [] => []
  | c :: rest => if is_nul c then [] else c :: cstr rest
  end.

(** The same, when the buffer does hold a terminator. *)
Definition c_string (buf : list ascii) : option (list ascii) :=
  if existsb is_nul buf then Some (cstr buf) else None.

(** [needle] is a prefix of [s]. *)
Fixpoint prefixb (needle s : list ascii) : bool :=
  match needle, s with
  | [], _ => true
  | _ :: _, [] => false
  | x :: needle', y :: s' => Ascii.eqb x y && prefixb needle' s'
  end.

(** [strchr(s, c)]: offset of the first [c] in [s]. *)
Fixpoint strchr (s : list ascii) (c : ascii) : option nat :=
  match s with
  | [] => None
  | x :: rest =>
      if Ascii.eqb x c then Some 0 else option_map S (strchr rest c)
  end.

(** [strrchr(s, c)]: offset of the last [c] in [s]. *)
Fixpoint strrchr (s : list ascii) (c : ascii) : option nat :=
  match s with
  | [] => None
  | x :: rest =>
      match strrchr rest c with
      | Some k => Some (S k)
      | None => if Ascii.eqb x c then Some 0 else None
      end
  end.

(** [strstr(haystack, needle)]: offset of the first occurrence. *)
Fixpoint strstr (haystack needle : list ascii) : option nat :=
  match haystack with
  | [] => if prefixb needle [] then Some 0 else None
  | _ :: rest =>
      if prefixb needle haystack then Some 0
      else option_map S (strstr rest needle)
  end.

(** [strstr] run on raw memory that need not be terminated: the scan stops
    at the first NUL, and leaves the allocation when there is none. *)
Inductive search : Type :=
| Found (offset : nat)
| NotFound
| Overrun.

Definition strstr_mem (buf needle : list ascii) : search :=
  match strstr (cstr buf) needle with
  | Some i => Found i
  | None => if existsb is_nul buf then NotFound else Overrun
  end.

(** [tolower] in the C locale and [strcasecmp(a, b) == 0]. *)
Definition tolower (c : ascii) : ascii :=
  let n := nat_of_ascii c in
  if (65 <=? n)%nat && (n <=? 90)%nat then ascii_of_nat (n + 32) else c.

Definition strcasecmp_eq (a b : list ascii) : bool :=
  streq (map tolower a) (map tolower b).

(** Writing [data] into a buffer at offset [off]; [None] when the write
    would leave the buffer. *)
Definition store (buf : list ascii) (off : nat) (data : list ascii)
  : option (list ascii) :=
  if (off + length data <=? length buf)%nat
  then Some (firstn off buf ++ data ++ skipn (off + length data) buf)
  else None.

(** [strncpy(dst, src, n)] writes exactly [n] bytes: the characters of
    [src], padded with NUL. *)
Definition strncpy (dst src : list ascii) (n : nat) : option (list ascii) :=
  store dst 0 (firstn n (src ++ repeat NUL n)).

(** [strcpy(dst, src)] writes the characters and the terminator. *)
Definition strcpy (dst src : list ascii) : option (list ascii) :=
  store dst 0 (src ++ [NUL]).

(** [printf("%i", n)]. *)
Definition decimal (n : Z) : list ascii :=
  cs (NilZero.string_of_int (Z.to_int n)).

(* ================================================================= *)
(** ** Limits *)

Definition LimitRequestFields : Z := 50.
Definition LimitRequestFieldSize : Z := 4094.
Definition LimitRequestLine : Z := 8190.
Definition BYTES : nat := 512.

(* ================================================================= *)
(** ** [reason] *)

(** The parameter is an [unsigned short]; an [int] argument is converted
    at the call. *)
Definition to_ushort (code : Z) : Z := (code mod 65536)%Z.

Definition reason (code : Z) : option (list ascii) :=
  if (code =? 200)%Z then Some (cs "OK")
  else if (code =? 301)%Z then Some (cs "Moved Permanently")
  else if (code =? 400)%Z then Some (cs "Bad Request")
  else if (code =? 403)%Z then Some (cs "Forbidden")
  else if (code =? 404)%Z then Some (cs "Not Found")
  else if (code =? 405)%Z then Some (cs "Method Not Allowed")
  else if (code =? 414)%Z then Some (cs "Request-URI Too Long")
  else if (code =? 418)%Z then Some (cs "I'm a teapot")
  else if (code =? 500)%Z then Some (cs "Internal Server Error")
  else if (code =? 501)%Z then Some (cs "Not Implemented")
  else if (code =? 505)%Z then Some (cs "HTTP Version Not Supported")
  else None.

(* ================================================================= *)
(** ** [parse] *)

(** [parse] either leaves the memory it was given (an access outside a
    variable-length array or outside one of the caller's buffers), or
    calls [error(code)] and returns false, or returns true with the two
    caller buffers as it left them. *)
Inductive parse_result : Type :=
| PFault
| PFail (code : Z)
| POk (abs_path query : list ascii).

(** [requestSize], the [int] computed from the two space pointers. *)
Definition requestSize (firstSpace secondSpace : nat) : Z :=
  (Z.of_nat secondSpace - Z.of_nat firstSpace - 1)%Z.

(** The local array [request]: [requestSize] bytes copied from just after
    the first space, then terminated. *)
Definition request_target (line : list ascii) (firstSpace secondSpace : nat)
  : list ascii :=
  firstn (Z.to_nat (requestSize firstSpace secondSpace))
         (skipn (firstSpace + 1) line).

Definition parse (line abs_path query : list ascii) : parse_result :=
  match strchr line " " with
  | None => PFail 400
  | Some firstSpace =>
    let method := firstn firstSpace line in
    if negb (streq method (cs "GET")) then PFail 405 else
    match strrchr line " " with
    | None => PFault
    | Some secondSpace =>
      if (requestSize firstSpace secondSpace <? 0)%Z then PFault else
      let request := request_target line firstSpace secondSpace in
      if negb (prefixb (cs "/") request) then PFail 501 else
      match strchr request DQUOTE with
      | Some _ => PFail 400
      | None =>
        match strstr line CRLF with
        | None => PFail 400
        | Some clrf =>
          let vlen := (Z.of_nat clrf - Z.of_nat secondSpace + 2)%Z in
          if (vlen <? 0)%Z then PFault else
          let version :=
            firstn (Z.to_nat vlen) (skipn (secondSpace + 1) line) in
          if negb (streq version (cs "HTTP/1.1" ++ CRLF)) then PFail 505 else
          match strchr request "?" with
          | Some _ =>
            match strchr line "?" with
            | None => PFault
            | Some queryBegins =>
              let plen := queryBegins - firstSpace - 1 in
              let qlen := secondSpace - queryBegins in
              match strncpy abs_path (skipn (firstSpace + 1) line) plen with
              | None => PFault
              | Some a1 =>
                match store a1 plen [NUL] with
                | None => PFault
                | Some a2 =>
                  match strncpy query (skipn (queryBegins + 1) line) qlen with
                  | None => PFault
                  | Some q1 =>
                    match store q1 qlen [NUL] with
                    | None => PFault
                    | Some q2 => POk a2 q2
                    end
                  end
                end
              end
            end
          | None =>
            (* [query = NULL] rebinds the parameter only *)
            match strcpy abs_path request with
            | None => PFault
            | Some a1 => POk a1 query
            end
          end
        end
      end
    end
  end.

(** The caller's buffers: [char abs_path[LimitRequestLine + 1]] and
    [char query[LimitRequestLine + 1]]. *)
Definition request_buffer_size : nat := Z.to_nat (LimitRequestLine + 1).

Definition blank_buffer : list ascii := repeat NUL request_buffer_size.

(* ================================================================= *)
(** ** [urldecode] *)

Definition isspace (c : ascii) : bool :=
  let n := nat_of_ascii c in
  (n =? 32)%nat || ((9 <=? n)%nat && (n <=? 13)%nat).

Definition hexval (c : ascii) : option Z :=
  let n := nat_of_ascii c in
  if (48 <=? n)%nat && (n <=? 57)%nat then Some (Z.of_nat n - 48)%Z
  else if (97 <=? n)%nat && (n <=? 102)%nat then Some (Z.of_nat n - 87)%Z
  else if (65 <=? n)%nat && (n <=? 70)%nat then Some (Z.of_nat n - 55)%Z
  else None.

Definition ishex (c : ascii) : bool :=
  match hexval c with Some _ => true | None => false end.

Fixpoint skip_spaces (s : list ascii) : list ascii :=
  match s with
  | c :: rest => if isspace c then skip_spaces rest else s
  | [] => []
  end.

Fixpoint hexdigits (acc : Z) (s : list ascii) : Z :=
  match s with
  | c :: rest =>
      match hexval c with
      | Some d => hexdigits (acc * 16 + d)%Z rest
      | None => acc
      end
  | [] => acc
  end.

(** [strtol(s, NULL, 16)]: leading white space, an optional sign, an
    optional [0x] prefix, then the longest run of hexadecimal digits (zero
    when there is none).  Saturation at [LONG_MAX] is not modelled: the
    only caller passes two characters. *)
Definition strtol16 (s : list ascii) : Z :=
  let s1 := skip_spaces s in
  let negative :=
    match s1 with c :: _ => Ascii.eqb c "-" | [] => false end in
  let s2 :=
    match s1 with
    | c :: rest => if Ascii.eqb c "-" || Ascii.eqb c "+" then rest else s1
    | [] => s1
    end in
  let s3 :=
    match s2 with
    | z :: x :: h :: rest =>
        if Ascii.eqb z "0" && (Ascii.eqb x "x" || Ascii.eqb x "X") && ishex h
        then h :: rest else s2
    | _ => s2
    end in
  let v := hexdigits 0 s3 in
  if negative then (- v)%Z else v.

(** The cast [(char)] of a [long]: its low eight bits. *)
Definition char_of_long (v : Z) : ascii := ascii_of_N (Z.to_N (v mod 256)).

(** The byte stored for [%] followed by the characters [c1] and [c2]. *)
Definition octet (c1 c2 : ascii) : ascii := char_of_long (strtol16 [c1; c2]).

(** The [for] loop of [urldecode], with the indices [i] and [j], the length
    [n] and the zeroed buffer [t] of the source.  Every read of [s] and
    every write of [t] is checked: [None] is an access outside the string
    or the buffer.  [fuel] bounds the number of iterations. *)
Fixpoint urldecode_loop (fuel : nat) (s : list ascii) (n i j : nat)
  (t : list ascii) : option (list ascii) :=
  if negb (i <? n)%nat then Some t else
  match fuel with
  | O => None
  | S fuel' =>
    match nth_error s i with
    | None => None
    | Some c =>
      if Ascii.eqb c "%" && (Z.of_nat i <? Z.of_nat n - 2)%Z then
        match nth_error s (i + 1), nth_error s (i + 2) with
        | Some c1, Some c2 =>
            match store t j [octet c1 c2] with
            | Some t' => urldecode_loop fuel' s n (i + 2 + 1) (j + 1) t'
            | None => None
            end
        | _, _ => None
        end
      else if Ascii.eqb c "+" then
        match store t j [" "%char] with
        | Some t' => urldecode_loop fuel' s n (i + 1) (j + 1) t'
        | None => None
        end
      else
        match store t j [c] with
        | Some t' => urldecode_loop fuel' s n (i + 1) (j + 1) t'
        | None => None
        end
    end
  end.

(** [urldecode] returns the [calloc]ed buffer of [strlen(s) + 1] bytes. *)
Definition urldecode (s : list ascii) : option (list ascii) :=
  let n := length s in
  urldecode_loop n s n 0 0 (repeat NUL (n + 1)).

(** The bytes the loop writes, by recursion on the input; the loop is shown
    below to compute exactly this. *)
Fixpoint decode (s : list ascii) : list ascii :=
  match s with
  | [] => []
  | c :: rest =>
      if Ascii.eqb c "%" then
        match rest with
        | c1 :: c2 :: rest' => octet c1 c2 :: decode rest'
        | _ => c :: decode rest
        end
      else if Ascii.eqb c "+" then " "%char :: decode rest
      else c :: decode rest
  end.

(* ================================================================= *)
(** ** [htmlspecialchars] *)

(** One iteration of the loop appends to [t] ([strcat] of an entity, or
    [strncat] of the single character). *)
Definition escape_step (t : list ascii) (c : ascii) : list ascii :=
  if Ascii.eqb c "&" then t ++ cs "&amp;"
  else if Ascii.eqb c DQUOTE then t ++ cs "&quot;"
  else if Ascii.eqb c SQUOTE then t ++ cs "&#039;"
  else if Ascii.eqb c "<" then t ++ cs "&lt;"
  else if Ascii.eqb c ">" then t ++ cs "&gt;"
  else t ++ [c].

Fixpoint htmlspecialchars_loop (s t : list ascii) : list ascii :=
  match s with
  | [] => t
  | c :: rest => htmlspecialchars_loop rest (escape_step t c)
  end.

Definition htmlspecialchars (s : list ascii) : list ascii :=
  htmlspecialchars_loop s [].

(** What a single character becomes. *)
Definition escape (c : ascii) : list ascii := escape_step [] c.

Definition special (c : ascii) : bool :=
  Ascii.eqb c "&" || Ascii.eqb c DQUOTE || Ascii.eqb c SQUOTE
  || Ascii.eqb c "<" || Ascii.eqb c ">".

(* ================================================================= *)
(** ** [lookup] *)

(** [strrchr] returns a null pointer when the path holds no ['.'], and
    [strcasecmp] then reads through it. *)
Inductive lookup_result : Type :=
| LFault
| LType (type : option (list ascii)).

Definition lookup (path : list ascii) : lookup_result :=
  match strrchr path "." with
  | None => LFault
  | Some dot =>
    let ext := skipn dot path in
    if strcasecmp_eq ext (cs ".css") then LType (Some (cs "text/css"))
    else if strcasecmp_eq ext (cs ".html") then LType (Some (cs "text/html"))
    else if strcasecmp_eq ext (cs ".gif") then LType (Some (cs "image/gif"))
    else if strcasecmp_eq ext (cs ".ico") then LType (Some (cs "image/x-ico"))
    else if strcasecmp_eq ext (cs ".jpg") then LType (Some (cs "image/jpeg"))
    else if strcasecmp_eq ext (cs ".js") then LType (Some (cs "text/javascript"))
    else if strcasecmp_eq ext (cs ".php") then LType (Some (cs "text/x-php"))
    else if strcasecmp_eq ext (cs ".png") then LType (Some (cs "image/png"))
    else LType None
  end.

(** The extension table of the specification. *)
Definition mime_table : list (list ascii * list ascii) :=
  [ (cs ".css", cs "text/css"); (cs ".html", cs "text/html");
    (cs ".gif", cs "image/gif"); (cs ".ico", cs "image/x-ico");
    (cs ".jpg", cs "image/jpeg"); (cs ".js", cs "text/javascript");
    (cs ".php", cs "text/x-php"); (cs ".png", cs "image/png") ].

Definition in_table (ext : list ascii) : bool :=
  existsb (fun entry => strcasecmp_eq ext (fst entry)) mime_table.

(* ================================================================= *)
(** ** [request] *)

(** What one call of [read(cfd, buffer, BYTES)] returns: a negative count,
    or the bytes received (at most [BYTES] of them, none at end of file). *)
Inductive read_result : Type :=
| ReadError
| ReadBytes (buffer : list ascii).

(** [request] returns true with the message and its length, or false with
    the message freed; [Starved] is the model running out of scripted
    reads while the loop still wants one. *)
Inductive framing : Type :=
| Framed (message : list ascii) (length : nat)
| Rejected
| Starved.

Definition header_limit : Z :=
  (LimitRequestLine + LimitRequestFields * LimitRequestFieldSize + 4)%Z.

(** The inner [while] loop over the header fields, which runs until
    [haystack] points at the terminator;
    [haystack] is the string at the pointer of the same name.  The result
    tells whether the loop was left at the end of the message. *)
Fixpoint scan_fields (fuel : nat) (haystack : list ascii) : bool :=
  match haystack with
  | [] => true
  | _ :: _ =>
    match fuel with
    | O => false
    | S fuel' =>
      match strstr haystack CRLF with
      | None => false
      | Some needle =>
        if (Z.of_nat needle + 2 >? LimitRequestFieldSize)%Z then false
        else scan_fields fuel' (skipn (needle + 2) haystack)
      end
    end
  end.

Fixpoint request_loop (reads : list read_result) (message : list ascii)
  : framing :=
  if negb (Z.of_nat (length message) <? header_limit)%Z then Rejected else
  match reads with
  | [] => Starved
  | ReadError :: _ => Rejected
  | ReadBytes buffer :: reads' =>
    (* append bytes to message; the message is kept NUL-terminated *)
    let message1 := message ++ buffer in
    let offset := if (length message <? 3)%nat then length message else 3 in
    let start := length message - offset in
    match strstr (cstr (skipn start message1)) CRLFCRLF with
    | None => request_loop reads' message1
    | Some k =>
      (* trim to one CRLF *)
      let length2 := start + k + 2 in
      let message2 := firstn length2 message1 in
      match strstr (cstr message2) CRLF with
      | None => Rejected
      | Some needle =>
        if (Z.of_nat needle + 2 >? LimitRequestLine)%Z then Rejected else
        (* count fields in message *)
        let fields := 0%Z in
        if negb (scan_fields (length message2)
                   (cstr (skipn (needle + 2) message2)))
        then Rejected
        else if (fields >? LimitRequestFields)%Z then Rejected
        else Framed message2 length2
      end
    end
  end.

Definition request (reads : list read_result) : framing :=
  request_loop reads [].

(** Number of header field lines in a framed message: the CRLF-terminated
    lines after the request-line. *)
Fixpoint count_lines (fuel : nat) (s : list ascii) : nat :=
  match fuel with
  | O => 0
  | S fuel' =>
    match strstr s CRLF with
    | None => 0
    | Some k => S (count_lines fuel' (skipn (k + 2) s))
    end
  end.

Definition field_count (message : list ascii) : nat :=
  count_lines (length message) (cstr message) - 1.

(* ================================================================= *)
(** ** [respond], [error], [redirect] *)

(** What the server does that can be observed: bytes written to the client
    socket and text printed on standard output. *)
Inductive event : Type :=
| Send (bytes : list ascii)
| Log (text : list ascii).

Definition trace : Type := list event.

Definition status_line (code : Z) (phrase : list ascii) : list ascii :=
  cs "HTTP/1.1 " ++ decimal code ++ cs " " ++ phrase.

(** [code] is an [int]; [reason] receives it as [unsigned short]. *)
Definition respond (code : Z) (headers body : list ascii) (length : nat)
  : trace :=
  match reason (to_ushort code) with
  | None => []
  | Some phrase =>
    [ Send (status_line code phrase ++ CRLF);
      Send headers;
      Send CRLF;
      Send (firstn length body);
      Log (ESC :: cs (if (code =? 200)%Z then "[32m" else "[33m"));
      Log (status_line code phrase);
      Log (ESC :: cs "[39m" ++ [LF]) ]
  end.

(** [code] is an [unsigned short]. *)
Definition error (code : Z) : trace :=
  let code := to_ushort code in
  match reason code with
  | None => []
  | Some phrase =>
    let body :=
      cs "<html><head><title>" ++ decimal code ++ cs " " ++ phrase
      ++ cs "</title></head><body><h1>" ++ decimal code ++ cs " " ++ phrase
      ++ cs "</h1></body></html>" in
    respond code (cs "Content-Type: text/html" ++ CRLF) body (length body)
  end.

Definition redirect (uri : list ascii) : trace :=
  respond 301 (cs "Location: " ++ uri ++ CRLF) [] 0.

(** The bytes that reached the client. *)
Fixpoint sent (t : trace) : list ascii :=
  match t with
  | [] => []
  | Send bytes :: t' => bytes ++ sent t'
  | Log _ :: t' => sent t'
  end.

(** The closed set of status codes. *)
Definition status_codes : list Z :=
  [200; 301; 400; 403; 404; 405; 414; 418; 500; 501; 505]%Z.

(* ================================================================= *)
(** ** The environment of a request *)

(** What the system calls of one request answer.  Paths and commands are
    C strings. *)
Record World : Type := {
  root : list ascii;                          (* the global [root] *)
  access_F : list ascii -> bool;              (* access(path, F_OK) == 0 *)
  access_R : list ascii -> bool;              (* access(path, R_OK) == 0 *)
  access_RX : list ascii -> bool;             (* access(path, R_OK | X_OK) == 0 *)
  is_directory : list ascii -> bool;          (* stat succeeds and S_ISDIR *)
  fopen_r : list ascii -> option (list ascii);    (* bytes of the opened file *)
  popen_r : list ascii -> option (list ascii);    (* bytes the command prints *)
  opendir_ok : list ascii -> bool;            (* opendir(path) != NULL *)
  scandir : list ascii -> list (list ascii);  (* entry names, alphasort order *)
  heap_byte : ascii;                          (* what malloc leaves in the
                                                 bytes it hands out *)
  malloc_zero : bool                          (* malloc(0) != NULL *)
}.

(** A request either runs to its end or leaves defined behaviour; in both
    cases [trace] is what was observed until then. *)
Inductive outcome : Type :=
| Done (t : trace)
| Crash (t : trace).

Definition after (pre : trace) (o : outcome) : outcome :=
  match o with
  | Done t => Done (pre ++ t)
  | Crash t => Crash (pre ++ t)
  end.

Definition trace_of (o : outcome) : trace :=
  match o with Done t => t | Crash t => t end.

(* ================================================================= *)
(** ** [load], [transfer], [interpret] *)

(** A [FILE*] with the bytes it delivers: a regular file opened by
    [fopen], or the read end of the pipe made by [popen]. *)
Inductive stream : Type :=
| File (bytes : list ascii)
| Pipe (bytes : list ascii).

(** [size_t] and its arithmetic (64 bits; nothing below depends on the
    width). *)
Definition SIZE_MAX : Z := (2 ^ 64 - 1)%Z.

Definition to_size (n : Z) : Z := (n mod (SIZE_MAX + 1))%Z.

(** [ftell] after [fseek(file, 0, SEEK_END)]: the size of a regular file;
    -1 on a pipe, which cannot be positioned. *)
Definition ftell (file : stream) : Z :=
  match file with
  | File bytes => Z.of_nat (length bytes)
  | Pipe _ => (-1)%Z
  end.

(** [malloc(size)]: the fresh allocation, or [None] for [NULL]. *)
Definition malloc (w : World) (size : nat) : option (list ascii) :=
  match size with
  | 0 => if malloc_zero w then Some [] else None
  | S _ => Some (repeat (heap_byte w) size)
  end.

(** [load] either returns false, or returns true with the allocation it
    made and the length it stored, or writes outside that allocation. *)
Inductive loaded : Type :=
| LoadFault
| LoadFalse
| Loaded (content : list ascii) (length : Z).

(** [load] stores what [ftell] returns in the [size_t] [*length],
    allocates [*length + 1] bytes, returns false when [malloc] gave
    [NULL], and otherwise lets [fread] fill the allocation with up to
    [*length] bytes of the stream; it never writes a terminator.
    - On a regular file (whose size fits [size_t]) the allocation ends up
      as the bytes of the file and one byte left as [malloc] gave it.
    - On a pipe [*length] is [SIZE_MAX] and [*length + 1] wraps to 0: the
      request is for no byte, and [fread] stores whatever the pipe
      delivers (always less than [SIZE_MAX] bytes) from the start of what
      [malloc] returned. *)
Definition load (w : World) (file : option stream) : loaded :=
  match file with
  | None => LoadFalse
  | Some (File bytes) =>
      Loaded (bytes ++ [heap_byte w]) (ftell (File bytes))
  | Some (Pipe bytes) =>
      let length := to_size (ftell (Pipe bytes)) in
      match malloc w (Z.to_nat (to_size (length + 1))) with
      | None => LoadFalse
      | Some buffer =>
        match store buffer 0 bytes with
        | Some content => Loaded content length
        | None => LoadFault
        end
      end
  end.

Definition transfer (w : World) (path type : list ascii) : trace :=
  if negb (access_R w path) then error 403 else
  match fopen_r w path with
  | None => error 500
  | Some bytes =>
    match load w (Some (File bytes)) with
    | LoadFalse => error 500
    | Loaded content length =>
        respond 200 (cs "Content-Type: " ++ type ++ CRLF) content
          (Z.to_nat length)
    | LoadFault => []  (* not reached: [load] stays inside the allocation
                          it makes for a regular file *)
    end
  end.

(** The command line handed to [popen]. *)
Definition php_command (path query : list ascii) : list ascii :=
  cs "QUERY_STRING=" ++ [DQUOTE] ++ query ++ [DQUOTE]
  ++ cs " REDIRECT_STATUS=200 SCRIPT_FILENAME=" ++ [DQUOTE] ++ path
  ++ [DQUOTE] ++ cs " php-cgi".

(** The end of [interpret]: the allocation [content] that [load] made is
    searched for the blank line and split there; the body handed to
    [respond] has the [size_t] length [length - (needle - haystack + 4)],
    and writing it must not leave the allocation. *)
Definition interpret_output (content : list ascii) (length : Z) : outcome :=
  match strstr_mem content CRLFCRLF with
  | Overrun => Crash []
  | NotFound => Done (error 500)
  | Found needle =>
    let body_length := to_size (length - (Z.of_nat needle + 4)) in
    if (Z.of_nat needle + 4 + body_length
        <=? Z.of_nat (Datatypes.length content))%Z
    then
      let headers := firstn (needle + 2) content in
      Done (respond 200 headers (skipn (needle + 4) content)
              (Z.to_nat body_length))
    else Crash []
  end.

(** [query] is the caller's buffer, read as a string by [strlen] and
    [sprintf]. *)
Definition interpret (w : World) (path query : list ascii) : outcome :=
  if negb (access_R w path) then Done (error 403) else
  match c_string query with
  | None => Crash []
  | Some q =>
    match popen_r w (php_command path q) with
    | None => Done (error 500)
    | Some bytes =>
      match load w (Some (Pipe bytes)) with
      | LoadFault => Crash []
      | LoadFalse => Done (error 500)
      | Loaded content length => interpret_output content length
      end
    end
  end.

(* ================================================================= *)
(** ** [indexes] and the directory listing *)

Definition indexes (w : World) (path : list ascii) : option (list ascii) :=
  let indexphp := path ++ cs "/index.php" in
  let indexhtml := path ++ cs "/index.html" in
  if access_F w indexphp then Some indexphp
  else if access_F w indexhtml then Some indexhtml
  else None.

Definition list_item (d_name : list ascii) : list ascii :=
  let name := htmlspecialchars d_name in
  cs "<li><a href=" ++ [DQUOTE] ++ name ++ [DQUOTE] ++ cs ">" ++ name
  ++ cs "</a></li>".

Fixpoint list_items (namelist : list (list ascii)) (items : list ascii)
  : list ascii :=
  match namelist with
  | [] => items
  | d_name :: rest =>
      if streq d_name (cs ".") then list_items rest items
      else list_items rest (items ++ list_item d_name)
  end.

(** The function [list] of the source. *)
Definition list_directory (w : World) (path : list ascii) : trace :=
  if negb (access_RX w path) then error 403 else
  if negb (opendir_ok w path) then [] else
  let items := list_items (scandir w path) [] in
  let relative := skipn (length (root w)) path in
  let body :=
    cs "<html><head><title>" ++ relative ++ cs "</title></head><body><h1>"
    ++ relative ++ cs "</h1><ul>" ++ items ++ cs "</ul></body></html>" in
  respond 200 (cs "Content-Type: text/html" ++ CRLF) body (length body).

(* ================================================================= *)
(** ** The body of the connection loop in [main] *)

(** From the MIME lookup on: [error(501)], [interpret] or [transfer]. *)
Definition dispatch (w : World) (path query : list ascii) : outcome :=
  match lookup path with
  | LFault => Crash []
  | LType None => Done (error 501)
  | LType (Some type) =>
      if strcasecmp_eq (cs "text/x-php") type then interpret w path query
      else Done (transfer w path type)
  end.

(** Resolution of a parsed request.  [abs_path] and [query] are the two
    buffers of [main] as [parse] left them. *)
Definition resolve (w : World) (abs_path query : list ascii) : outcome :=
  let abs := cstr abs_path in
  match urldecode abs with
  | None => Crash []
  | Some p =>
    let path := root w ++ cstr p in
    if negb (access_F w path) then Done (error 404) else
    if is_directory w path then
      match rev abs with
      | [] => Crash []
      | final :: _ =>
        if negb (Ascii.eqb final "/") then Done (redirect (abs ++ cs "/"))
        else
          match indexes w path with
          | Some index => dispatch w index query
          | None => Done (list_directory w path)
          end
      end
    else dispatch w path query
  end.

(** One accepted connection whose request was framed as [message];
    [abs_path] and [query] are the two stack buffers of [main] before
    [parse] runs. *)
Definition serve (w : World) (message abs_path query : list ascii)
  : outcome :=
  let haystack := cstr message in
  match strstr haystack CRLF with
  | None => Done (error 500)
  | Some needle =>
    let line := firstn (needle + 2) haystack in
    after [Log line]
      match parse line abs_path query with
      | PFault => Crash []
      | PFail code => Done (error code)
      | POk abs_path' query' => resolve w abs_path' query'
      end
  end.

(** One connection, from the framing on.  A rejected request closes the
    connection without any response. *)
Definition connection (w : World) (reads : list read_result)
  (abs_path query : list ascii) : option outcome :=
  match request reads with
  | Framed message _ => Some (serve w message abs_path query)
  | Rejected => Some (Done [])
  | Starved => None
  end.

(* ================================================================= *)
(** ** A sample site *)

(** A small document root used to run the server model on concrete
    requests: a directory [img], a file without extension, a script, a
    style sheet with an unknown extension and a page. *)
Definition member (p : list ascii) (l : list (list ascii)) : bool :=
  existsb (streq p) l.

Definition site_directories : list (list ascii) :=
  [cs "/srv/www/"; cs "/srv/www/img"; cs "/srv/www/img/"].

Definition site_files : list (list ascii * list ascii) :=
  [ (cs "/srv/www/README", cs "read me");
    (cs "/srv/www//index.html", cs "<html></html>");
    (cs "/srv/www/app.php", cs "<?php echo 1; ?>");
    (cs "/srv/www/style.xyz", cs "body {}");
    (cs "/srv/www/index.html", cs "<html></html>") ].

Fixpoint file_bytes (p : list ascii) (files : list (list ascii * list ascii))
  : option (list ascii) :=
  match files with
  | [] => None
  | (name, bytes) :: rest =>
      if streq p name then Some bytes else file_bytes p rest
  end.

Definition site_exists (p : list ascii) : bool :=
  member p site_directories || member p (map fst site_files).

(** The site, given what the interpreter prints and the byte [malloc]
    leaves behind the loaded content. *)
Definition site_with (output : list ascii) (junk : ascii) : World := {|
  root := cs "/srv/www";
  access_F := site_exists;
  access_R := site_exists;
  access_RX := site_exists;
  is_directory := fun p => member p site_directories;
  fopen_r := fun p => file_bytes p site_files;
  popen_r := fun _ => Some output;
  opendir_ok := fun p => member p site_directories;
  scandir := fun _ => [cs "."; cs ".."; cs "a&b.png"];
  heap_byte := junk;
  malloc_zero := true
|}.

Definition site : World :=
  site_with (cs "Content-Type: text/plain" ++ CRLFCRLF ++ cs "hello") NUL.

(** A request with [n] header fields [a: b]. *)
Definition get_with_fields (n : nat) : list ascii :=
  cs "GET / HTTP/1.1" ++ CRLF
  ++ concat (repeat (cs "a: b" ++ CRLF) n) ++ CRLF.

(* ================================================================= *)
(** ** Derived notions used by the statements *)

(** The part of a request-target before its first question mark, and the
    part after it when there is one. *)
Definition path_part (target : list ascii) : list ascii :=
  match strchr target "?" with
  | Some k => firstn k target
  | None => target
  end.

Definition query_part (target : list ascii) : option (list ascii) :=
  match strchr target "?" with
  | Some k => Some (skipn (k + 1) target)
  | None => None
  end.

(** The local path [main] builds: the root followed by the decoded
    absolute path, read as a string. *)
Definition resolved_path (w : World) (abs_path : list ascii) : list ascii :=
  root w ++ cstr (decode (cstr abs_path)).

(** The successive writes to the client socket. *)
Fixpoint sends (t : trace) : list (list ascii) :=
  match t with
  | [] => []
  | Send bytes :: t' => bytes :: sends t'
  | Log _ :: t' => sends t'
  end.

(** The trace holds one response, whose status line carries [code] and
    its reason phrase. *)
Definition response_with_status (t : trace) (code : Z) : Prop :=
  exists phrase headers body,
    reason code = Some phrase
    /\ sends t = [status_line code phrase ++ CRLF; headers; CRLF; body].

(** Nothing was written to the client, or one response whose code is in
    the closed set. *)
Definition response_in_table (t : trace) : Prop :=
  sends t = []
  \/ exists code, In code status_codes /\ response_with_status t code.

(** A buffer of [main] that still holds the query of an earlier request. *)
Definition stale_buffer : list ascii := cs "id=7" ++ skipn 4 blank_buffer.

(* ================================================================= *)
(** ** Notions used by the further properties *)

(** What [urldecode] does to a character outside a percent escape. *)
Definition plus_to_space (c : ascii) : ascii :=
  if Ascii.eqb c "+" then " "%char else c.

(** The characters that can open or close markup or an attribute value. *)
Definition markup (c : ascii) : bool :=
  Ascii.eqb c "<" || Ascii.eqb c ">" || Ascii.eqb c DQUOTE
  || Ascii.eqb c SQUOTE.

(** The entries a directory listing shows: all but [.]. *)
Definition listed (d_name : list ascii) : bool := negb (streq d_name (cs ".")).

(** The checks [request] runs on the message once it is trimmed to end
    after the first CRLF of the terminator. *)
Definition check_trimmed (message : list ascii) : framing :=
  match strstr (cstr message) CRLF with
  | None => Rejected
  | Some needle =>
    if (Z.of_nat needle + 2 >? LimitRequestLine)%Z then Rejected else
    let fields := 0%Z in
    if negb (scan_fields (length message)
               (cstr (skipn (needle + 2) message)))
    then Rejected
    else if (fields >? LimitRequestFields)%Z then Rejected
    else Framed message (length message)
  end.

(** The bytes of the reads that delivered data. *)
Fixpoint received (reads : list read_result) : list ascii :=
  match reads with
  | [] => []
  | ReadError :: _ => []
  | ReadBytes buffer :: reads' => buffer ++ received reads'
  end.

(* ================================================================= *)
(** * Properties *)

(** ** Strings and buffers *)


Lemma prefixb_split (a s : list ascii) :
  prefixb a s = true -> exists rest, s = a ++ rest.
Proof.
  revert s; induction a as [|x a IH]; intros s H.
  - now exists s.
  - destruct s as [|y s]; simpl in H; [discriminate|].
    apply andb_true_iff in H as [Hxy Ha].
    apply Ascii.eqb_eq in Hxy; subst y.
    destruct (IH _ Ha) as [rest ->]. now exists rest.
Qed.

Lemma streq_eq (a b : list ascii) : streq a b = true <-> a = b.
Proof.
  revert b; induction a as [|x a IH]; intros [|y b]; simpl;
    try (split; [discriminate | discriminate]); [tauto|].
  rewrite andb_true_iff, Ascii.eqb_eq, IH.
  split; [intros [-> ->]; reflexivity | intros [= -> ->]; auto].
Qed.

Lemma strchr_absent (s : list ascii) (c : ascii) :
  ~ In c s -> strchr s c = None.
Proof.
  induction s as [|x s IH]; simpl; intros H; [reflexivity|].
  destruct (Ascii.eqb_spec x c) as [->|_]; [tauto|].
  rewrite IH; tauto.
Qed.

Lemma strrchr_absent (s : list ascii) (c : ascii) :
  ~ In c s -> strrchr s c = None.
Proof.
  induction s as [|x s IH]; simpl; intros H; [reflexivity|].
  rewrite IH by tauto.
  destruct (Ascii.eqb_spec x c) as [->|_]; tauto.
Qed.

Lemma cstr_terminated (s rest : list ascii) :
  ~ In NUL s -> cstr (s ++ NUL :: rest) = s.
Proof.
  induction s as [|x s IH]; simpl; intros H; [reflexivity|].
  unfold is_nul. destruct (Ascii.eqb_spec x NUL) as [->|_]; [tauto|].
  rewrite IH; tauto.
Qed.

Lemma cstr_no_nul (s : list ascii) : ~ In NUL (cstr s).
Proof.
  induction s as [|x s IH]; simpl; [tauto|].
  unfold is_nul. destruct (Ascii.eqb_spec x NUL) as [->|Hx]; simpl; [tauto|].
  intros [H|H]; [congruence | tauto].
Qed.

Lemma cstr_clean (s : list ascii) : ~ In NUL s -> cstr s = s.
Proof.
  induction s as [|x s IH]; simpl; intros H; [reflexivity|].
  unfold is_nul. destruct (Ascii.eqb_spec x NUL) as [->|_]; [tauto|].
  rewrite IH; tauto.
Qed.

(** ** What an accepted request line looks like *)

Lemma strchr_split (s : list ascii) (c : ascii) (k : nat) :
  strchr s c = Some k ->
  s = firstn k s ++ c :: skipn (k + 1) s
  /\ ~ In c (firstn k s) /\ k < length s.
Proof.
  revert k; induction s as [|x s IH]; intros k H; simpl in H;
    [discriminate|].
  destruct (Ascii.eqb_spec x c) as [->|Hx].
  - injection H as <-. simpl. repeat split; [tauto | lia].
  - destruct (strchr s c) as [j|]; [|discriminate].
    injection H as <-. destruct (IH j eq_refl) as (E & Hn & Hl).
    simpl. repeat split.
    + now rewrite <- E.
    + intros [F|F]; [congruence | tauto].
    + lia.
Qed.

Lemma strrchr_split (s : list ascii) (c : ascii) (k : nat) :
  strrchr s c = Some k ->
  s = firstn k s ++ c :: skipn (k + 1) s
  /\ ~ In c (skipn (k + 1) s) /\ k < length s.
Proof.
  revert k; induction s as [|x s IH]; intros k H; simpl in H;
    [discriminate|].
  destruct (strrchr s c) as [j|] eqn:Hj.
  - injection H as <-. destruct (IH j eq_refl) as (E & Hn & Hl).
    simpl. repeat split; [now rewrite <- E | assumption | lia].
  - destruct (Ascii.eqb_spec x c) as [->|Hx]; [|discriminate].
    injection H as <-. simpl. repeat split; [|lia].
    intros Hin. revert Hj. clear -Hin.
    induction s as [|y s IH]; simpl; [destruct Hin|].
    destruct (strrchr s c) eqn:E; [discriminate|].
    destruct (Ascii.eqb_spec y c); [discriminate|].
    destruct Hin as [F|F]; [congruence|]. intros _. now apply IH.
Qed.

Lemma strchr_firstn (s : list ascii) (c : ascii) (n k : nat) :
  strchr (firstn n s) c = Some k -> strchr s c = Some k /\ k < n.
Proof.
  revert n k; induction s as [|x s IH]; intros [|n] k H; simpl in H;
    try discriminate.
  simpl. destruct (Ascii.eqb x c).
  - injection H as <-. split; [reflexivity | lia].
  - destruct (strchr (firstn n s) c) as [j|] eqn:E; [|discriminate].
    injection H as <-. destruct (IH _ _ E) as [-> Hj]. split; [reflexivity|lia].
Qed.

Lemma In_firstn_skipn (s : list ascii) (c : ascii) (n m : nat) :
  In c (firstn n (skipn m s)) -> In c s.
Proof.
  intros H. rewrite <- (firstn_skipn m s). apply in_or_app. right.
  rewrite <- (firstn_skipn n (skipn m s)). apply in_or_app. now left.
Qed.

Lemma cstr_strcpy (dst src d : list ascii) :
  ~ In NUL src -> strcpy dst src = Some d -> cstr d = src.
Proof.
  unfold strcpy, store. intros Hs H.
  destruct (_ <=? _)%nat; [|discriminate]. injection H as <-.
  cbn [firstn app]. rewrite <- app_assoc. now apply cstr_terminated.
Qed.

Lemma cstr_strncpy_terminated (dst src d1 d2 : list ascii) (n : nat) :
  n <= length src -> ~ In NUL (firstn n src) ->
  strncpy dst src n = Some d1 -> store d1 n [NUL] = Some d2 ->
  cstr d2 = firstn n src.
Proof.
  unfold strncpy, store. intros Hn Hs H1 H2.
  rewrite firstn_app in H1.
  replace (n - length src) with 0 in H1 by lia.
  cbn [firstn] in H1. rewrite app_nil_r in H1.
  destruct (_ <=? _)%nat; [|discriminate]. injection H1 as <-.
  destruct (_ <=? _)%nat; [|discriminate]. injection H2 as <-.
  cbn [firstn app]. rewrite firstn_app.
  assert (Hl : length (firstn n src) = n) by (rewrite length_firstn; lia).
  rewrite Hl, Nat.sub_diag. cbn [firstn]. rewrite app_nil_r.
  rewrite firstn_all2 by lia.
  now apply cstr_terminated.
Qed.

Lemma request_line_method (line : list ascii) (fs : nat) :
  strchr line " " = Some fs ->
  streq (firstn fs line) (cs "GET") = true ->
  fs = 3 /\ exists rest, line = cs "GET " ++ rest.
Proof.
  intros H Hm. apply streq_eq in Hm.
  destruct (strchr_split _ _ _ H) as (E & _ & Hl).
  assert (Hfs : fs = 3).
  { apply (f_equal (@length ascii)) in Hm.
    rewrite length_firstn in Hm. simpl in Hm. lia. }
  subst fs. split; [reflexivity|].
  exists (skipn 4 line). rewrite E at 1. rewrite Hm. reflexivity.
Qed.

Lemma parse_accepts (line abs0 q0 a q : list ascii) :
  ~ In NUL line ->
  parse line abs0 q0 = POk a q ->
  exists k,
    strchr line " " = Some 3
    /\ strrchr line " " = Some (4 + k)
    /\ prefixb (cs "/") (request_target line 3 (4 + k)) = true
    /\ cstr a = path_part (request_target line 3 (4 + k))
    /\ match query_part (request_target line 3 (4 + k)) with
       | Some text => cstr q = text ++ cs " "
       | None => q = q0
       end.
Proof.
  intros Hnul H. unfold parse in H.
  destruct (strchr line " ") as [fs|] eqn:Hfs; [|discriminate].
  destruct (streq (firstn fs line) (cs "GET")) eqn:Hm;
    cbn [negb] in H; [|discriminate].
  destruct (request_line_method _ _ Hfs Hm) as (-> & rest & ->).
  destruct (strrchr (cs "GET " ++ rest) " ") as [ss|] eqn:Hss;
    [|discriminate].
  assert (Hk : exists k, strrchr rest " " = Some k /\ ss = 4 + k
                         \/ strrchr rest " " = None /\ ss = 3 /\ k = 0).
  { simpl in Hss. destruct (strrchr rest " ") as [k|].
    - exists k. left. split; [reflexivity|]. now injection Hss as <-.
    - exists 0. right. repeat split. now injection Hss as <-. }
  destruct Hk as [k [[Hr ->]|(_ & -> & _)]];
    [|cbn in H; discriminate].
  exists k. split; [reflexivity|]. split; [reflexivity|].
  destruct (strrchr_split _ _ _ Hr) as (Erest & _ & Hklt).
  assert (Htarget : request_target (cs "GET " ++ rest) 3 (4 + k)
                    = firstn k rest).
  { unfold request_target, requestSize. cbn [cs list_ascii_of_string app skipn].
    f_equal. lia. }
  rewrite Htarget in *.
  replace (requestSize 3 (4 + k) <? 0)%Z with false in H
    by (symmetry; apply Z.ltb_ge; unfold requestSize; lia).
  destruct (prefixb (cs "/") (firstn k rest)) eqn:Hslash;
    cbn [negb] in H; [|discriminate].
  split; [reflexivity|].
  destruct (strchr (firstn k rest) DQUOTE); [discriminate|].
  destruct (strstr (cs "GET " ++ rest) CRLF) as [clrf|]; [|discriminate].
  destruct (_ <? 0)%Z; [discriminate|].
  destruct (negb _); [discriminate|].
  assert (Hclean : forall n m, ~ In NUL (firstn n (skipn m rest))).
  { intros n m F. apply Hnul. apply in_or_app. right.
    now apply In_firstn_skipn in F. }
  unfold path_part, query_part.
  destruct (strchr (firstn k rest) "?") as [j|] eqn:Hj.
  - destruct (strchr_firstn _ _ _ _ Hj) as [Hjr Hjk].
    assert (Hline : strchr (cs "GET " ++ rest) "?" = Some (4 + j)).
    { simpl. now rewrite Hjr. }
    rewrite Hline in H.
    replace (4 + j - 3 - 1) with j in H by lia.
    replace (4 + k - (4 + j)) with (k - j) in H by lia.
    change (skipn (3 + 1) (cs "GET " ++ rest)) with rest in H.
    change (skipn (4 + j + 1) (cs "GET " ++ rest))
      with (skipn (j + 1) rest) in H.
    destruct (strncpy abs0 rest j) as [a1|] eqn:Ha1; [|discriminate].
    destruct (store a1 j [NUL]) as [a2|] eqn:Ha2; [|discriminate].
    destruct (strncpy q0 (skipn (j + 1) rest) (k - j)) as [q1|] eqn:Hq1;
      [|discriminate].
    destruct (store q1 (k - j) [NUL]) as [q2|] eqn:Hq2; [|discriminate].
    injection H as <- <-. split.
    + assert (Hb : j <= length rest) by lia.
      rewrite (cstr_strncpy_terminated _ _ _ _ _ Hb (Hclean j 0) Ha1 Ha2).
      rewrite firstn_firstn. f_equal. lia.
    + assert (Hb : k - j <= length (skipn (j + 1) rest))
        by (rewrite length_skipn; lia).
      rewrite (cstr_strncpy_terminated _ _ _ _ _ Hb (Hclean _ _) Hq1 Hq2).
      (* the k - j characters after the question mark: the query and the
         space that ends the request-target *)
      rewrite Erest at 1.
      rewrite skipn_app, firstn_app.
      assert (Hlen : length (firstn k rest) = k)
        by (rewrite length_firstn; lia).
      rewrite Hlen, length_skipn, Hlen.
      replace (j + 1 - k) with 0 by lia.
      replace (k - j - (k - (j + 1))) with 1 by lia.
      cbn [skipn firstn].
      rewrite firstn_all2 by (rewrite length_skipn, Hlen; lia).
      reflexivity.
  - destruct (strcpy abs0 (firstn k rest)) as [a1|] eqn:Ha1; [|discriminate].
    injection H as <- <-. split; [|reflexivity].
    exact (cstr_strcpy _ _ _ (Hclean k 0) Ha1).
Qed.

(** ** [parse] *)

(** C1.  A request line that [parse] accepts is [GET], a space, the
    request-target and a last space; the stored absolute path is the
    target up to its first question mark.  When the target holds a
    question mark, the stored query is the text after it followed by one
    space: the copy takes [secondSpace - queryBegins] characters, one more
    than lie strictly between the question mark and the last space.  On
    [GET /a/b?x=1 HTTP/1.1] the path is [/a/b] and the query is [x=1]
    with a trailing space. *)
Theorem parse_query_keeps_trailing_space :
  (forall line abs0 q0 a q : list ascii,
      ~ In NUL line ->
      parse line abs0 q0 = POk a q ->
      exists k,
        strchr line " " = Some 3
        /\ strrchr line " " = Some (4 + k)
        /\ cstr a = path_part (request_target line 3 (4 + k))
        /\ forall text,
             query_part (request_target line 3 (4 + k)) = Some text ->
             cstr q = text ++ cs " " /\ cstr q <> text)
  /\ (forall abs0 q0 : list ascii,
        5 <= length abs0 -> 5 <= length q0 ->
        exists a q,
          parse (cs "GET /a/b?x=1 HTTP/1.1" ++ CRLF) abs0 q0 = POk a q
          /\ cstr a = cs "/a/b"
          /\ cstr q = cs "x=1 "
          /\ cstr q <> cs "x=1").
Proof.
  split.
  - intros line abs0 q0 a q Hnul H.
    destruct (parse_accepts _ _ _ _ _ Hnul H) as (k & H1 & H2 & _ & Ha & Hq).
    exists k. repeat split; try assumption.
    + destruct (query_part _); [|discriminate].
      injection H0 as <-. exact Hq.
    + destruct (query_part _); [|discriminate].
      injection H0 as <-. rewrite Hq. intros E.
      apply (f_equal (@length ascii)) in E.
      rewrite length_app in E. simpl in E. lia.
  - intros abs0 q0 Ha Hq.
    do 5 (destruct abs0 as [|? abs0]; [simpl in Ha; lia|]).
    do 5 (destruct q0 as [|? q0]; [simpl in Hq; lia|]).
    eexists; eexists. split; [vm_compute; reflexivity|].
    repeat split; try reflexivity. discriminate.
Qed.

Lemma parse_query_keeps_trailing_space_witness :
  exists a q,
    parse (cs "GET /a/b?x=1 HTTP/1.1" ++ CRLF) blank_buffer blank_buffer
      = POk a q
    /\ cstr a = cs "/a/b" /\ cstr q = cs "x=1 " /\ cstr q <> cs "x=1".
Proof.
  apply (proj2 parse_query_keeps_trailing_space blank_buffer blank_buffer);
    apply Nat.leb_le; vm_compute; reflexivity.
Defined.

(** ** [urldecode] *)

Lemma store_one (t : list ascii) (j : nat) (x : ascii) :
  j < length t ->
  store t j [x] = Some (firstn j t ++ x :: skipn (j + 1) t).
Proof.
  intros H. unfold store. simpl length.
  destruct (Nat.leb_spec (j + 1) (length t)); [reflexivity | lia].
Qed.

Lemma poke_length (t : list ascii) (j : nat) (x : ascii) :
  j < length t -> length (firstn j t ++ x :: skipn (j + 1) t) = length t.
Proof.
  intros H. rewrite length_app. simpl.
  rewrite length_firstn, length_skipn. lia.
Qed.

Lemma poke_view (t tail : list ascii) (j : nat) (x : ascii) :
  j < length t ->
  let t' := firstn j t ++ x :: skipn (j + 1) t in
  firstn (j + 1) t' ++ tail ++ skipn (j + 1 + length tail) t'
  = firstn j t ++ (x :: tail) ++ skipn (j + length (x :: tail)) t.
Proof.
  intros H t'. subst t'.
  assert (Hj : length (firstn j t) = j) by (rewrite length_firstn; lia).
  rewrite firstn_app, Hj, firstn_all2 by lia.
  replace (j + 1 - j) with 1 by lia. simpl firstn.
  rewrite skipn_app, Hj, (skipn_all2 (firstn j t)) by lia.
  replace (j + 1 + length tail - j) with (S (length tail)) by lia.
  simpl skipn. rewrite skipn_skipn.
  replace (length tail + (j + 1)) with (j + length (x :: tail))
    by (simpl; lia).
  now rewrite <- !app_assoc.
Qed.

Lemma nth_error_middle (done rest : list ascii) (k : nat) :
  nth_error (done ++ rest) (length done + k) = nth_error rest k.
Proof.
  rewrite nth_error_app2 by lia. f_equal. lia.
Qed.

(** The loop, started in the middle of the string: [done] has been
    consumed, [rest] remains, and [j] bytes of [t] have been written. *)
Lemma urldecode_loop_decode (fuel : nat) :
  forall (done rest t : list ascii) (j : nat),
    length rest <= fuel ->
    j <= length done ->
    length t = length (done ++ rest) + 1 ->
    urldecode_loop fuel (done ++ rest) (length (done ++ rest))
      (length done) j t
    = Some (firstn j t ++ decode rest
              ++ skipn (j + length (decode rest)) t).
Proof.
  induction fuel as [|fuel IH]; intros done rest t j Hfuel Hj Ht.
  - destruct rest; [|simpl in Hfuel; lia].
    rewrite app_nil_r. simpl. rewrite Nat.ltb_irrefl. simpl.
    now rewrite Nat.add_0_r, firstn_skipn.
  - destruct rest as [|c rest].
    { rewrite app_nil_r. simpl. rewrite Nat.ltb_irrefl. simpl.
      now rewrite Nat.add_0_r, firstn_skipn. }
    assert (Hlt : (length done <? length (done ++ c :: rest)) = true).
    { apply Nat.ltb_lt. rewrite length_app. simpl. lia. }
    assert (Hjt : j < length t).
    { rewrite Ht, length_app. simpl. lia. }
    (* a step that consumes the single character [c] and stores [x] *)
    assert (Hone : forall x,
      match store t j [x] with
      | Some t' =>
          urldecode_loop fuel (done ++ c :: rest)
            (length (done ++ c :: rest)) (length done + 1) (j + 1) t'
      | None => None
      end = Some (firstn j t ++ (x :: decode rest)
                    ++ skipn (j + length (x :: decode rest)) t)).
    { intros x. rewrite store_one by assumption.
      replace (done ++ c :: rest) with ((done ++ [c]) ++ rest)
        by (now rewrite <- app_assoc).
      replace (length done + 1) with (length (done ++ [c]))
        by (rewrite length_app; reflexivity).
      rewrite IH.
      - apply f_equal. now apply poke_view.
      - simpl in Hfuel. lia.
      - rewrite length_app. simpl. lia.
      - rewrite poke_length by assumption.
        rewrite Ht, <- app_assoc. reflexivity. }
    cbn [urldecode_loop]. rewrite Hlt. cbn [negb].
    rewrite <- (Nat.add_0_r (length done)) at 1.
    rewrite nth_error_middle. cbn [nth_error].
    destruct (Ascii.eqb_spec c "%") as [->|Hpct].
    + destruct rest as [|c1 [|c2 rest]].
      * replace (Z.of_nat (length done) <?
                   Z.of_nat (length (done ++ ["%"%char])) - 2)%Z
          with false
          by (symmetry; apply Z.ltb_ge; rewrite length_app; simpl; lia).
        cbn [andb]. change (Ascii.eqb "%" "+") with false. cbv iota.
        apply Hone.
      * replace (Z.of_nat (length done) <?
                   Z.of_nat (length (done ++ ["%"%char; c1])) - 2)%Z
          with false
          by (symmetry; apply Z.ltb_ge; rewrite length_app; simpl; lia).
        cbn [andb]. change (Ascii.eqb "%" "+") with false. cbv iota.
        apply Hone.
      * replace (Z.of_nat (length done) <?
                   Z.of_nat (length (done ++ "%"%char :: c1 :: c2 :: rest))
                   - 2)%Z
          with true
          by (symmetry; apply Z.ltb_lt; rewrite length_app; simpl; lia).
        cbn [andb]. rewrite !nth_error_middle. cbn [nth_error].
        rewrite store_one by assumption.
        replace (done ++ "%"%char :: c1 :: c2 :: rest)
          with ((done ++ ["%"%char; c1; c2]) ++ rest)
          by (now rewrite <- app_assoc).
        replace (length done + 2 + 1)
          with (length (done ++ ["%"%char; c1; c2]))
          by (rewrite length_app; simpl; lia).
        rewrite IH.
        -- apply f_equal. cbn [decode]. change (Ascii.eqb "%" "%") with true.
           cbv iota. now apply poke_view.
        -- simpl in Hfuel. lia.
        -- rewrite length_app. simpl. lia.
        -- rewrite poke_length by assumption.
           rewrite Ht, <- app_assoc. reflexivity.
    + cbn [andb decode]. rewrite (proj2 (Ascii.eqb_neq c "%") Hpct).
      cbn [andb]. destruct (Ascii.eqb c "+"); apply Hone.
Qed.

Lemma decode_length (s : list ascii) : length (decode s) <= length s.
Proof.
  assert (H : forall n s, length s <= n -> length (decode s) <= length s).
  { clear s. induction n as [|n IH]; intros [|c s] Hn; simpl in *;
      try lia.
    destruct (Ascii.eqb c "%").
    - destruct s as [|c1 [|c2 s]]; simpl in *; try lia.
      + destruct (Ascii.eqb c1 "%"), (Ascii.eqb c1 "+"); simpl; lia.
      + specialize (IH s). lia.
    - specialize (IH s). destruct (Ascii.eqb c "+"); simpl; lia. }
  now apply (H (length s)).
Qed.

Lemma cstr_length (s : list ascii) : length (cstr s) <= length s.
Proof.
  induction s as [|c s IH]; simpl; [lia|].
  destruct (is_nul c); simpl; lia.
Qed.

Lemma cstr_zero_padded (s : list ascii) (k : nat) :
  cstr (s ++ repeat NUL k) = cstr s.
Proof.
  induction s as [|c s IH]; simpl.
  - destruct k; reflexivity.
  - now rewrite IH.
Qed.

Lemma urldecode_total (s : list ascii) :
  urldecode s
  = Some (decode s ++ repeat NUL (length s + 1 - length (decode s))).
Proof.
  unfold urldecode.
  pose proof (urldecode_loop_decode (length s) [] s
                (repeat NUL (length s + 1)) 0) as H.
  simpl in H. rewrite H; [|lia|lia|now rewrite repeat_length].
  f_equal. f_equal.
  pose proof (decode_length s) as Hd.
  replace (length s + 1) with
    (length (decode s) + (length s + 1 - length (decode s))) at 1 by lia.
  rewrite repeat_app, skipn_app, repeat_length, Nat.sub_diag.
  rewrite skipn_all2 by (rewrite repeat_length; lia). reflexivity.
Qed.

Lemma hexval_facts (x : ascii) (d : Z) :
  hexval x = Some d ->
  isspace x = false /\ Ascii.eqb x "-" = false /\ Ascii.eqb x "+" = false
  /\ (0 <= d < 16)%Z.
Proof.
  destruct x as [[] [] [] [] [] [] [] []]; vm_compute;
    intros H; try discriminate H; injection H as <-;
    repeat split; congruence.
Qed.

Lemma octet_hex (x y : ascii) (dx dy : Z) :
  hexval x = Some dx -> hexval y = Some dy ->
  octet x y = ascii_of_N (Z.to_N (16 * dx + dy)).
Proof.
  intros Hx Hy.
  destruct (hexval_facts _ _ Hx) as (Hsp & Hm & Hp & Hdx).
  destruct (hexval_facts _ _ Hy) as (_ & _ & _ & Hdy).
  unfold octet, strtol16. cbn [skip_spaces]. rewrite Hsp, Hm, Hp.
  cbn [orb hexdigits]. rewrite Hx, Hy.
  unfold char_of_long. rewrite Z.mod_small by lia. do 2 f_equal. lia.
Qed.

(** C3 (as the code has it).  [urldecode] never leaves its input or its
    buffer and returns the bytes [decode s] followed by zeros.  A ['%']
    with at least two characters after it is replaced, together with those
    two characters, by the single byte [(char) strtol] makes of them, which
    is 0xXY when both are hexadecimal digits; ['+'] becomes a space; any
    other character, and a ['%'] with fewer than two characters after it,
    is copied unchanged.  The output is no longer than the input, and
    [%41%20B+C] decodes to [A B C]. *)
Theorem urldecode_spec :
  (forall s, urldecode s
     = Some (decode s ++ repeat NUL (length s + 1 - length (decode s))))
  /\ (forall s t, urldecode s = Some t ->
        cstr t = cstr (decode s) /\ length (cstr t) <= length s)
  /\ (forall s, length (decode s) <= length s)
  /\ (forall c1 c2 rest,
        decode ("%"%char :: c1 :: c2 :: rest) = octet c1 c2 :: decode rest)
  /\ (forall x y dx dy,
        hexval x = Some dx -> hexval y = Some dy ->
        octet x y = ascii_of_N (Z.to_N (16 * dx + dy)))
  /\ (forall rest, decode ("+"%char :: rest) = " "%char :: decode rest)
  /\ (forall c rest,
        c <> "%"%char -> c <> "+"%char -> decode (c :: rest) = c :: decode rest)
  /\ decode (cs "%") = cs "%"
  /\ (forall c, decode ["%"%char; c] = "%"%char :: decode [c])
  /\ option_map cstr (urldecode (cs "%41%20B+C")) = Some (cs "A B C").
Proof.
  split; [exact urldecode_total|].
  split.
  { intros s t H. rewrite urldecode_total in H. injection H as <-.
    rewrite cstr_zero_padded. split; [reflexivity|].
    pose proof (cstr_length (decode s)). pose proof (decode_length s). lia. }
  split; [exact decode_length|].
  split; [reflexivity|].
  split; [exact octet_hex|].
  split; [reflexivity|].
  split.
  { intros c rest H1 H2. cbn [decode].
    now rewrite (proj2 (Ascii.eqb_neq c "%") H1),
                (proj2 (Ascii.eqb_neq c "+") H2). }
  split; [reflexivity|].
  split; [reflexivity|].
  vm_compute. reflexivity.
Qed.

Lemma urldecode_spec_witness :
  octet "4" "1" = "A"%char
  /\ decode (cs "a%4") = cs "a%4"
  /\ option_map cstr (urldecode (cs "%41%20B+C")) = Some (cs "A B C").
Proof.
  destruct urldecode_spec as (_ & _ & _ & _ & Hhex & _ & Hplain & _ & _ & Hex).
  split; [exact (Hhex "4" "1" 4 1 eq_refl eq_refl)%char%Z|].
  split; [|exact Hex].
  apply (Hplain "a"%char); discriminate.
Defined.

(** A ['%'] that is not followed by two hexadecimal digits is not passed
    through: [%zz] becomes a single zero byte, so the decoded string is
    empty. *)
Lemma urldecode_percent_without_hex :
  ishex "z" = false
  /\ urldecode (cs "%zz") = Some [NUL; NUL; NUL; NUL]
  /\ option_map cstr (urldecode (cs "%zz")) <> Some (cs "%zz").
Proof.
  split; [reflexivity|]. split; [vm_compute; reflexivity|].
  vm_compute. discriminate.
Qed.

(** ** [htmlspecialchars] *)

Lemma escape_step_app (t : list ascii) (c : ascii) :
  escape_step t c = t ++ escape c.
Proof.
  unfold escape, escape_step.
  repeat match goal with
         | |- context [if ?b then _ else _] => destruct b
         end; reflexivity.
Qed.

Lemma htmlspecialchars_loop_app (s t : list ascii) :
  htmlspecialchars_loop s t = t ++ flat_map escape s.
Proof.
  revert t; induction s as [|c s IH]; intros t; simpl.
  - now rewrite app_nil_r.
  - now rewrite IH, escape_step_app, <- app_assoc.
Qed.

Lemma htmlspecialchars_flat_map (s : list ascii) :
  htmlspecialchars s = flat_map escape s.
Proof. apply htmlspecialchars_loop_app. Qed.

Lemma escape_plain (c : ascii) : special c = false -> escape c = [c].
Proof.
  unfold special, escape, escape_step. intros H.
  repeat (apply orb_false_iff in H as [H ?]).
  now repeat match goal with E : _ = false |- _ => rewrite E; clear E end.
Qed.

Lemma escape_twice (c : ascii) :
  htmlspecialchars (escape c)
  = if special c then cs "&amp;" ++ tl (escape c) else [c].
Proof.
  destruct c as [[] [] [] [] [] [] [] []]; vm_compute; reflexivity.
Qed.

Lemma escape_twice_length (c : ascii) :
  length (htmlspecialchars (escape c))
  = length (escape c) + (if special c then 4 else 0).
Proof.
  destruct c as [[] [] [] [] [] [] [] []]; vm_compute; reflexivity.
Qed.

Lemma htmlspecialchars_twice (s : list ascii) :
  htmlspecialchars (htmlspecialchars s)
  = flat_map (fun c => htmlspecialchars (escape c)) s.
Proof.
  rewrite !htmlspecialchars_flat_map.
  induction s as [|c s IH]; simpl; [reflexivity|].
  now rewrite flat_map_app, IH, htmlspecialchars_flat_map.
Qed.

Lemma htmlspecialchars_twice_length (s : list ascii) :
  length (htmlspecialchars (htmlspecialchars s))
  = length (htmlspecialchars s) + 4 * length (filter special s).
Proof.
  rewrite htmlspecialchars_twice, htmlspecialchars_flat_map.
  induction s as [|c s IH]; simpl; [reflexivity|].
  rewrite !length_app, IH, escape_twice_length.
  destruct (special c); simpl; lia.
Qed.

(** C7.  [htmlspecialchars] replaces each of the five special characters
    by its entity and copies every other character; on the sample input it
    yields the escaped text of the specification; and it is not
    idempotent: a second pass turns the ampersand of every entity of the
    first pass into [&amp;], so the text grows by four characters for each
    special character of the input. *)
Theorem htmlspecialchars_spec :
  (forall s, htmlspecialchars s = flat_map escape s)
  /\ escape "&" = cs "&amp;"
  /\ escape DQUOTE = cs "&quot;"
  /\ escape SQUOTE = cs "&#039;"
  /\ escape "<" = cs "&lt;"
  /\ escape ">" = cs "&gt;"
  /\ (forall c, special c = false -> escape c = [c])
  /\ htmlspecialchars (cs "<a>&" ++ [DQUOTE; SQUOTE] ++ cs "</a>")
     = cs "&lt;a&gt;&amp;&quot;&#039;&lt;/a&gt;"
  /\ (forall s, htmlspecialchars (htmlspecialchars s)
                = flat_map (fun c => htmlspecialchars (escape c)) s)
  /\ (forall c, special c = true ->
        htmlspecialchars (escape c) = cs "&amp;" ++ tl (escape c))
  /\ (forall s, length (htmlspecialchars (htmlspecialchars s))
                = length (htmlspecialchars s) + 4 * length (filter special s))
  /\ (forall s, existsb special s = true ->
        htmlspecialchars (htmlspecialchars s) <> htmlspecialchars s).
Proof.
  split; [exact htmlspecialchars_flat_map|].
  do 5 (split; [reflexivity|]).
  split; [exact escape_plain|].
  split; [vm_compute; reflexivity|].
  split; [exact htmlspecialchars_twice|].
  split.
  { intros c H. rewrite escape_twice, H. reflexivity. }
  split; [exact htmlspecialchars_twice_length|].
  intros s H E. apply (f_equal (@length ascii)) in E.
  rewrite htmlspecialchars_twice_length in E.
  apply existsb_exists in H as (c & Hin & Hc).
  assert (Hf : In c (filter special s)) by (apply filter_In; auto).
  destruct (filter special s); [destruct Hf | simpl in E; lia].
Qed.

Lemma htmlspecialchars_spec_witness :
  escape "a" = cs "a"
  /\ htmlspecialchars (escape "<") = cs "&amp;lt;"
  /\ htmlspecialchars (htmlspecialchars (cs "a&b")) <> htmlspecialchars (cs "a&b").
Proof.
  destruct htmlspecialchars_spec
    as (_ & _ & _ & _ & _ & _ & Hplain & _ & _ & Hent & _ & Hnot).
  split; [exact (Hplain "a"%char eq_refl)|].
  split; [exact (Hent "<"%char eq_refl)|].
  exact (Hnot (cs "a&b") eq_refl).
Defined.

(** ** [parse]: the two spaces and the query buffer *)

Lemma count_occ_absent (s : list ascii) (c : ascii) :
  count_occ ascii_dec s c = 0 -> ~ In c s.
Proof. intros H. now apply (count_occ_not_In ascii_dec). Qed.

(** C10.  On a line that begins with [GET ] and holds exactly one space,
    [strchr] and [strrchr] find the same space, [requestSize] is -1, and
    [parse] leaves defined behaviour at the copy into [request] instead of
    answering with an error status. *)
Theorem parse_single_space_faults :
  forall line abs0 q0 : list ascii,
    prefixb (cs "GET ") line = true ->
    count_occ ascii_dec line " "%char = 1 ->
    strchr line " " = Some 3
    /\ strrchr line " " = Some 3
    /\ requestSize 3 3 = (-1)%Z
    /\ parse line abs0 q0 = PFault
    /\ forall code, parse line abs0 q0 <> PFail code.
Proof.
  intros line abs0 q0 Hp Hc.
  apply prefixb_split in Hp as [rest ->].
  assert (Hrest : ~ In " "%char rest).
  { apply count_occ_absent. simpl in Hc.
    destruct (ascii_dec "G" " ") as [E|_]; [discriminate E|].
    destruct (ascii_dec "E" " ") as [E|_]; [discriminate E|].
    destruct (ascii_dec "T" " ") as [E|_]; [discriminate E|].
    destruct (ascii_dec " " " ") as [_|N]; [|now destruct N].
    lia. }
  assert (H1 : strchr (cs "GET " ++ rest) " " = Some 3) by reflexivity.
  assert (H2 : strrchr (cs "GET " ++ rest) " " = Some 3).
  { simpl. now rewrite (strrchr_absent rest " " Hrest). }
  assert (H3 : parse (cs "GET " ++ rest) abs0 q0 = PFault).
  { unfold parse. rewrite H1, H2. reflexivity. }
  repeat split; try assumption. intros code. rewrite H3. discriminate.
Qed.

Lemma parse_single_space_faults_witness :
  strchr (cs "GET " ++ CRLF) " " = Some 3
  /\ strrchr (cs "GET " ++ CRLF) " " = Some 3
  /\ requestSize 3 3 = (-1)%Z
  /\ parse (cs "GET " ++ CRLF) blank_buffer blank_buffer = PFault
  /\ forall code,
       parse (cs "GET " ++ CRLF) blank_buffer blank_buffer <> PFail code.
Proof.
  apply (parse_single_space_faults (cs "GET " ++ CRLF));
    vm_compute; reflexivity.
Defined.

(** When the request-target holds no question mark, a successful [parse]
    hands the [query] buffer back exactly as it received it. *)
Lemma parse_frames_query (line abs0 q0 a q : list ascii) (fs ss : nat) :
  strchr line " " = Some fs ->
  strrchr line " " = Some ss ->
  strchr (request_target line fs ss) "?" = None ->
  parse line abs0 q0 = POk a q ->
  q = q0.
Proof.
  intros Hfs Hss Hq H. unfold parse in H. rewrite Hfs, Hss, Hq in H.
  repeat match type of H with
         | (if ?b then _ else _) = _ => destruct b; try discriminate H
         | match ?x with _ => _ end = _ => destruct x; try discriminate H
         end.
  now injection H as _ ->.
Qed.

(** ** [request]: the field counter *)

(** C2.  A request with 51 header fields, each within the size limit,
    received in one read, is framed successfully: [fields] is still 0 when
    it is compared with [LimitRequestFields].  The connection is then
    served, here with a 200 response, instead of being closed without
    one. *)
Theorem request_accepts_51_fields :
  exists message,
    request [ReadBytes (get_with_fields 51)] = Framed message 322
    /\ field_count message = 51
    /\ (Z.of_nat (field_count message) > LimitRequestFields)%Z
    /\ length (get_with_fields 51) <= BYTES
    /\ exists t,
         connection site [ReadBytes (get_with_fields 51)]
           blank_buffer blank_buffer = Some (Done t)
         /\ prefixb (cs "HTTP/1.1 200 OK") (sent t) = true.
Proof.
  eexists. split; [vm_compute; reflexivity|].
  split; [vm_compute; reflexivity|].
  split; [reflexivity|].
  split; [apply Nat.leb_le; vm_compute; reflexivity|].
  eexists. split; vm_compute; reflexivity.
Qed.

(** ** [lookup] *)

(** C4.  For a path without any ['.'], [strrchr] returns a null pointer
    and [lookup] reads through it: no type is reported and no 501 response
    is produced. *)
Theorem lookup_without_dot_faults :
  forall path : list ascii,
    ~ In "."%char path ->
    lookup path = LFault
    /\ forall w query, dispatch w path query = Crash [].
Proof.
  intros path H.
  assert (E : lookup path = LFault).
  { unfold lookup. now rewrite (strrchr_absent path "." H). }
  split; [exact E|]. intros w query. unfold dispatch. now rewrite E.
Qed.

Lemma not_In_via_strchr (s : list ascii) (c : ascii) :
  strchr s c = None -> ~ In c s.
Proof.
  induction s as [|x s IH]; simpl; [tauto|].
  destruct (Ascii.eqb_spec x c) as [->|Hx]; [discriminate|].
  destruct (strchr s c); [discriminate|].
  intros _ [E|E]; [congruence | now apply IH].
Qed.

Lemma lookup_without_dot_faults_witness :
  lookup (cs "/srv/www/README") = LFault
  /\ forall w query, dispatch w (cs "/srv/www/README") query = Crash [].
Proof.
  apply (lookup_without_dot_faults (cs "/srv/www/README")).
  apply not_In_via_strchr. vm_compute. reflexivity.
Defined.

(** The extensions outside the table, when the path does hold a ['.']:
    no type, and the 501 response. *)
Lemma lookup_unknown_extension (path : list ascii) (dot : nat) :
  strrchr path "." = Some dot ->
  in_table (skipn dot path) = false ->
  lookup path = LType None
  /\ forall w query, dispatch w path query = Done (error 501).
Proof.
  intros Hdot Htab.
  assert (E : lookup path = LType None).
  { unfold lookup. rewrite Hdot.
    unfold in_table, mime_table in Htab. cbn [existsb fst] in Htab.
    repeat (apply orb_false_iff in Htab as [? Htab]).
    now repeat match goal with
               | E : strcasecmp_eq _ _ = false |- _ => rewrite E; clear E
               end. }
  split; [exact E|]. intros w query. unfold dispatch. now rewrite E.
Qed.

(** ** Responses *)

Lemma to_ushort_small (code : Z) :
  (0 <= code < 65536)%Z -> to_ushort code = code.
Proof. intros H. unfold to_ushort. now apply Z.mod_small. Qed.

Lemma to_ushort_idem (code : Z) : to_ushort (to_ushort code) = to_ushort code.
Proof.
  unfold to_ushort. rewrite Z.mod_mod by lia. reflexivity.
Qed.

Lemma reason_table (code : Z) :
  reason code <> None <-> In code status_codes.
Proof.
  unfold reason, status_codes. split.
  - intros H.
    repeat match goal with
           | H : context [(code =? ?k)%Z] |- _ =>
               destruct (Z.eqb_spec code k);
               [subst; simpl; tauto|]
           end.
    now destruct H.
  - intros H. simpl in H.
    repeat (destruct H as [<-|H]; [discriminate|]). destruct H.
Qed.

Lemma reason_range (code : Z) (phrase : list ascii) :
  reason code = Some phrase -> (0 <= code < 65536)%Z.
Proof.
  intros H. assert (Hin : In code status_codes).
  { apply reason_table. congruence. }
  simpl in Hin. repeat (destruct Hin as [<-|Hin]; [lia|]). destruct Hin.
Qed.

Lemma sent_respond (code : Z) (phrase headers body : list ascii) (n : nat) :
  reason (to_ushort code) = Some phrase ->
  sent (respond code headers body n)
  = status_line code phrase ++ CRLF ++ headers ++ CRLF ++ firstn n body.
Proof.
  intros H. unfold respond. rewrite H. cbn [sent].
  now rewrite app_nil_r, <- !app_assoc.
Qed.

(** ** Resolution *)

Lemma resolve_decoded (w : World) (abs_path query : list ascii) :
  resolve w abs_path query
  = if negb (access_F w (resolved_path w abs_path)) then Done (error 404)
    else if is_directory w (resolved_path w abs_path) then
      match rev (cstr abs_path) with
      | [] => Crash []
      | final :: _ =>
        if negb (Ascii.eqb final "/")
        then Done (redirect (cstr abs_path ++ cs "/"))
        else
          match indexes w (resolved_path w abs_path) with
          | Some index => dispatch w index query
          | None => Done (list_directory w (resolved_path w abs_path))
          end
      end
    else dispatch w (resolved_path w abs_path) query.
Proof.
  unfold resolve, resolved_path.
  now rewrite urldecode_total, cstr_zero_padded.
Qed.

Lemma path_part_nonempty (target : list ascii) :
  prefixb (cs "/") target = true -> path_part target <> [].
Proof.
  intros H. apply prefixb_split in H as [rest ->].
  unfold path_part. cbn [cs list_ascii_of_string app strchr].
  change (Ascii.eqb "/" "?") with false. cbv iota.
  destruct (strchr rest "?"); discriminate.
Qed.

(** C5.  When the resolved path exists and is a directory and the path
    stored by [parse] does not end in a slash, the server answers 301 with
    the single header [Location:] followed by that path and a slash, and
    no body.  The stored path is the request-target of the request line up
    to its first question mark, as received (still percent-encoded). *)
Theorem directory_without_slash_redirects :
  forall (w : World) (message abs0 q0 a q : list ascii) (needle : nat),
    strstr (cstr message) CRLF = Some needle ->
    parse (firstn (needle + 2) (cstr message)) abs0 q0 = POk a q ->
    access_F w (resolved_path w a) = true ->
    is_directory w (resolved_path w a) = true ->
    (forall front, cstr a <> front ++ cs "/") ->
    serve w message abs0 q0
    = Done (Log (firstn (needle + 2) (cstr message))
              :: respond 301 (cs "Location: " ++ (cstr a ++ cs "/") ++ CRLF)
                   [] 0)
    /\ sent (trace_of (serve w message abs0 q0))
       = cs "HTTP/1.1 301 Moved Permanently" ++ CRLF
         ++ cs "Location: " ++ cstr a ++ cs "/" ++ CRLF
         ++ CRLF
    /\ exists k,
         strrchr (firstn (needle + 2) (cstr message)) " " = Some (4 + k)
         /\ cstr a
            = path_part
                (request_target (firstn (needle + 2) (cstr message))
                   3 (4 + k)).
Proof.
  intros w message abs0 q0 a q needle Hn Hp Hacc Hdir Hlast.
  assert (Hline : exists k,
    strrchr (firstn (needle + 2) (cstr message)) " " = Some (4 + k)
    /\ cstr a
       = path_part
           (request_target (firstn (needle + 2) (cstr message)) 3 (4 + k))).
  { assert (Hnul : ~ In NUL (firstn (needle + 2) (cstr message))).
    { intros F. apply (cstr_no_nul message).
      now apply (In_firstn_skipn _ _ (needle + 2) 0). }
    destruct (parse_accepts _ _ _ _ _ Hnul Hp) as (k & _ & Hk & _ & Ha & _).
    now exists k. }
  assert (Hsome : cstr a <> []).
  { assert (Hnul : ~ In NUL (firstn (needle + 2) (cstr message))).
    { intros F. apply (cstr_no_nul message).
      now apply (In_firstn_skipn _ _ (needle + 2) 0). }
    destruct (parse_accepts _ _ _ _ _ Hnul Hp) as (k & _ & _ & Hs & -> & _).
    now apply path_part_nonempty. }
  assert (E : serve w message abs0 q0
              = Done (Log (firstn (needle + 2) (cstr message))
                        :: redirect (cstr a ++ cs "/"))).
  { unfold serve. rewrite Hn, Hp, resolve_decoded, Hacc, Hdir. cbn [negb].
    destruct (rev (cstr a)) as [|final tail] eqn:Hrev.
    - apply (f_equal (@rev ascii)) in Hrev.
      rewrite rev_involutive in Hrev. now destruct Hsome.
    - destruct (Ascii.eqb_spec final "/") as [->|_]; [|reflexivity].
      apply (f_equal (@rev ascii)) in Hrev.
      rewrite rev_involutive in Hrev. now destruct (Hlast (rev tail)). }
  split; [exact E|]. split; [|exact Hline].
  rewrite E. cbn [trace_of sent]. unfold redirect.
  rewrite (sent_respond 301 (cs "Moved Permanently")) by reflexivity.
  cbn [firstn]. rewrite app_nil_r, <- !app_assoc. reflexivity.
Qed.

Lemma directory_without_slash_redirects_witness :
  sent (trace_of (serve site (cs "GET /img?x HTTP/1.1" ++ CRLF)
                    blank_buffer blank_buffer))
  = cs "HTTP/1.1 301 Moved Permanently" ++ CRLF
    ++ cs "Location: " ++ cs "/img" ++ cs "/" ++ CRLF ++ CRLF.
Proof.
  refine (proj1 (proj2 (directory_without_slash_redirects site
            (cs "GET /img?x HTTP/1.1" ++ CRLF)
            blank_buffer blank_buffer
            (cs "/img" ++ skipn 4 blank_buffer)
            (cs "x " ++ skipn 2 blank_buffer) 19 _ _ _ _ _)));
    try (vm_compute; reflexivity).
  intros front E. apply (f_equal (fun s => last s "/"%char)) in E.
  cbv beta in E. change (cs "/") with ["/"%char] in E.
  rewrite last_last in E. vm_compute in E. discriminate E.
Defined.

(** ** The query buffer of a request without query *)

(** C9.  For a request line that [parse] accepts and whose request-target
    holds no question mark, the [query] buffer comes back from [parse]
    byte for byte as [main] passed it, and when the resolved path is a
    script it is this untouched buffer that [main] hands to [interpret]. *)
Theorem parse_without_query_keeps_buffer :
  forall (w : World) (message abs0 q0 a q : list ascii)
         (needle fs ss : nat),
    strstr (cstr message) CRLF = Some needle ->
    strchr (firstn (needle + 2) (cstr message)) " " = Some fs ->
    strrchr (firstn (needle + 2) (cstr message)) " " = Some ss ->
    strchr (request_target (firstn (needle + 2) (cstr message)) fs ss) "?"
      = None ->
    parse (firstn (needle + 2) (cstr message)) abs0 q0 = POk a q ->
    q = q0
    /\ serve w message abs0 q0
       = after [Log (firstn (needle + 2) (cstr message))] (resolve w a q0)
    /\ (access_F w (resolved_path w a) = true ->
        is_directory w (resolved_path w a) = false ->
        lookup (resolved_path w a) = LType (Some (cs "text/x-php")) ->
        serve w message abs0 q0
        = after [Log (firstn (needle + 2) (cstr message))]
            (interpret w (resolved_path w a) q0)).
Proof.
  intros w message abs0 q0 a q needle fs ss Hn Hfs Hss Hq Hp.
  assert (E : q = q0) by exact (parse_frames_query _ _ _ _ _ _ _ Hfs Hss Hq Hp).
  subst q.
  assert (Hs : serve w message abs0 q0
               = after [Log (firstn (needle + 2) (cstr message))]
                   (resolve w a q0)).
  { unfold serve. now rewrite Hn, Hp. }
  split; [reflexivity|]. split; [exact Hs|].
  intros Hacc Hdir Hlook. rewrite Hs. f_equal.
  rewrite resolve_decoded, Hacc, Hdir. cbn [negb].
  unfold dispatch. rewrite Hlook. reflexivity.
Qed.

Lemma parse_without_query_keeps_buffer_witness :
  parse (cs "GET /app.php HTTP/1.1" ++ CRLF) blank_buffer stale_buffer
  = POk (cs "/app.php" ++ skipn 8 blank_buffer) stale_buffer
  /\ serve site (cs "GET /app.php HTTP/1.1" ++ CRLF) blank_buffer stale_buffer
     = after [Log (cs "GET /app.php HTTP/1.1" ++ CRLF)]
         (interpret site (cs "/srv/www/app.php") stale_buffer).
Proof.
  assert (Hp : parse (cs "GET /app.php HTTP/1.1" ++ CRLF)
                 blank_buffer stale_buffer
               = POk (cs "/app.php" ++ skipn 8 blank_buffer) stale_buffer)
    by (vm_compute; reflexivity).
  split; [exact Hp|].
  refine (proj2 (proj2 (parse_without_query_keeps_buffer site
            (cs "GET /app.php HTTP/1.1" ++ CRLF) blank_buffer stale_buffer
            (cs "/app.php" ++ skipn 8 blank_buffer) stale_buffer
            21 3 12 _ _ _ _ Hp)) _ _ _);
    vm_compute; reflexivity.
Defined.

(** ** Searching *)

Lemma prefixb_length (n s : list ascii) :
  prefixb n s = true -> length n <= length s.
Proof.
  revert s; induction n as [|x n IH]; intros [|y s] H; simpl in *;
    try lia; try discriminate.
  apply andb_true_iff in H as [_ H]. specialize (IH _ H). lia.
Qed.

Lemma prefixb_app_long (n s x : list ascii) :
  length n <= length s -> prefixb n (s ++ x) = prefixb n s.
Proof.
  revert s; induction n as [|c n IH]; intros [|y s] H; simpl in *;
    try reflexivity; try lia.
  rewrite IH by lia. reflexivity.
Qed.

Lemma strstr_bound (h n : list ascii) (i : nat) :
  strstr h n = Some i -> i + length n <= length h.
Proof.
  revert i; induction h as [|c h IH]; intros i H; simpl in H.
  - destruct (prefixb n []) eqn:E; [|discriminate].
    injection H as <-. apply prefixb_length in E. simpl in *. lia.
  - destruct (prefixb n (c :: h)) eqn:E.
    + injection H as <-. apply prefixb_length in E. simpl in *. lia.
    + destruct (strstr h n) as [k|] eqn:Hk; [|discriminate].
      injection H as <-. specialize (IH _ eq_refl). simpl. lia.
Qed.

(** The first occurrence does not move when text is appended. *)
Lemma strstr_app (h n x : list ascii) (i : nat) :
  strstr h n = Some i -> strstr (h ++ x) n = Some i.
Proof.
  revert i; induction h as [|c h IH]; intros i H.
  - simpl in H. destruct n; [|discriminate].
    injection H as <-. destruct x; reflexivity.
  - pose proof (strstr_bound _ _ _ H) as Hb. simpl in H.
    change ((c :: h) ++ x) with (c :: h ++ x). cbn [strstr].
    change (c :: h ++ x) with ((c :: h) ++ x).
    destruct (prefixb n (c :: h)) eqn:E.
    + injection H as <-.
      rewrite prefixb_app_long by (now apply prefixb_length). now rewrite E.
    + destruct (strstr h n) as [k|] eqn:Hk; [|discriminate].
      injection H as <-.
      rewrite prefixb_app_long, E by (simpl in *; lia).
      now rewrite (IH _ eq_refl).
Qed.

Lemma cstr_prefix (s : list ascii) : exists rest, s = cstr s ++ rest.
Proof.
  induction s as [|c s [rest IH]]; simpl.
  - now exists [].
  - destruct (is_nul c).
    + now exists (c :: s).
    + exists rest. simpl. now f_equal.
Qed.

(** ** [interpret] *)

Lemma load_pipe (w : World) (bytes : list ascii) :
  load w (Some (Pipe bytes))
  = if malloc_zero w then
      match bytes with
      | [] => Loaded [] SIZE_MAX
      | _ :: _ => LoadFault
      end
    else LoadFalse.
Proof.
  unfold load.
  change (Z.to_nat (to_size (to_size (ftell (Pipe bytes)) + 1))) with 0.
  change (to_size (ftell (Pipe bytes))) with SIZE_MAX.
  unfold malloc. destruct (malloc_zero w); [|reflexivity].
  destruct bytes; reflexivity.
Qed.

Lemma interpret_output_empty (n : Z) : interpret_output [] n = Crash [].
Proof. reflexivity. Qed.

Lemma error_500_not_200 (headers body : list ascii) (n : nat) :
  error 500 <> respond 200 headers body n.
Proof.
  unfold error, respond.
  change (reason (to_ushort 200)) with (Some (cs "OK")).
  change (reason (to_ushort 500)) with (Some (cs "Internal Server Error")).
  cbv beta iota zeta.
  change (reason (to_ushort (to_ushort 500)))
    with (Some (cs "Internal Server Error")).
  cbv beta iota.
  intros H. injection H as H _. vm_compute in H. discriminate H.
Qed.

(** C6.  [interpret] hands [load] the pipe of [popen], on which [ftell]
    returns -1: [load] takes [SIZE_MAX] for the length and asks [malloc]
    for no byte.  Where [malloc] answers that with [NULL], [load] returns
    false and the server answers 500, whatever the script printed.  Where
    it answers with a pointer, [fread] stores the output of the script
    past the allocation (and when the script printed nothing, the search
    for the blank line reads past it): the server leaves defined
    behaviour before the output is split and sends nothing.  In no case,
    with or without a blank line in the output, does the server send the
    200 response with the headers and the body of the script. *)
Theorem interpret_loses_script_output :
  forall (w : World) (path query q bytes : list ascii),
    access_R w path = true ->
    c_string query = Some q ->
    popen_r w (php_command path q) = Some bytes ->
    interpret w path query
    = (if malloc_zero w then Crash [] else Done (error 500))
    /\ (forall (headers body : list ascii) (n : nat),
          interpret w path query <> Done (respond 200 headers body n)).
Proof.
  intros w path query q bytes Hacc Hq Hpipe.
  assert (E : interpret w path query
              = if malloc_zero w then Crash [] else Done (error 500)).
  { unfold interpret. rewrite Hacc, Hq, Hpipe, load_pipe. cbn [negb].
    destruct (malloc_zero w); [|reflexivity].
    destruct bytes; [apply interpret_output_empty | reflexivity]. }
  split; [exact E|].
  intros headers body n. rewrite E.
  destruct (malloc_zero w); [discriminate|].
  intros H. apply (error_500_not_200 headers body n).
  exact (f_equal trace_of H).
Qed.

(** The script output of the specification's scenario, which holds a
    blank line, and an output without one, where [malloc] answers a
    request of no byte with a pointer. *)
Lemma interpret_loses_script_output_witness :
  (strstr (cs "Content-Type: text/plain" ++ CRLFCRLF ++ cs "hello") CRLFCRLF
   = Some 24
   /\ interpret site (cs "/srv/www/app.php") stale_buffer = Crash [])
  /\ (strstr (cs "hello") CRLFCRLF = None
      /\ interpret (site_with (cs "hello") NUL) (cs "/srv/www/app.php")
           stale_buffer = Crash []).
Proof.
  split; (split; [vm_compute; reflexivity|]).
  - refine (proj1 (interpret_loses_script_output site
              (cs "/srv/www/app.php") stale_buffer (cs "id=7")
              (cs "Content-Type: text/plain" ++ CRLFCRLF ++ cs "hello")
              _ _ _));
      vm_compute; reflexivity.
  - refine (proj1 (interpret_loses_script_output
              (site_with (cs "hello") NUL)
              (cs "/srv/www/app.php") stale_buffer (cs "id=7") (cs "hello")
              _ _ _));
      vm_compute; reflexivity.
Defined.

(** ** Status codes *)

Lemma respond_in_table (code : Z) (headers body : list ascii) (n : nat) :
  (0 <= code < 65536)%Z ->
  response_in_table (respond code headers body n).
Proof.
  intros Hc. unfold respond. rewrite to_ushort_small by assumption.
  destruct (reason code) as [phrase|] eqn:E; [|now left].
  right. exists code. split.
  - apply reason_table. congruence.
  - exists phrase, headers, (firstn n body). now split.
Qed.

Lemma error_in_table (code : Z) : response_in_table (error code).
Proof.
  unfold error. destruct (reason (to_ushort code)) eqn:E; [|now left].
  apply respond_in_table. exact (reason_range _ _ E).
Qed.

Lemma silent_in_table : response_in_table [].
Proof. now left. Qed.

Create HintDb responses.
#[local] Hint Resolve error_in_table silent_in_table : responses.
#[local] Hint Extern 1 (response_in_table (respond _ _ _ _)) =>
  apply respond_in_table; lia : responses.

Section Handlers.

Variable w : World.

Lemma transfer_in_table (path type : list ascii) :
  response_in_table (transfer w path type).
Proof.
  unfold transfer, load.
  destruct (access_R w path); cbn [negb]; auto with responses.
  destruct (fopen_r w path); auto with responses.
Qed.

Lemma list_directory_in_table (path : list ascii) :
  response_in_table (list_directory w path).
Proof.
  unfold list_directory.
  destruct (access_RX w path); cbn [negb]; auto with responses.
  destruct (opendir_ok w path); cbn [negb]; auto with responses.
Qed.

Lemma interpret_in_table (path query : list ascii) :
  response_in_table (trace_of (interpret w path query)).
Proof.
  unfold interpret.
  destruct (access_R w path); cbn [negb trace_of]; auto with responses.
  destruct (c_string query); cbn [trace_of]; auto with responses.
  destruct (popen_r w _) as [bytes|]; cbn [trace_of]; auto with responses.
  destruct (load w (Some (Pipe bytes))) as [| |content n];
    cbn [trace_of]; auto with responses.
  unfold interpret_output.
  destruct (strstr_mem _ _); cbn [trace_of]; auto with responses.
  destruct (_ <=? _)%Z; cbn [trace_of]; auto with responses.
Qed.

#[local] Hint Resolve transfer_in_table list_directory_in_table
  interpret_in_table : responses.

Lemma dispatch_in_table (path query : list ascii) :
  response_in_table (trace_of (dispatch w path query)).
Proof.
  unfold dispatch. destruct (lookup path) as [|[type|]];
    cbn [trace_of]; auto with responses.
  destruct (strcasecmp_eq _ _); cbn [trace_of]; auto with responses.
Qed.

#[local] Hint Resolve dispatch_in_table : responses.

Lemma resolve_in_table (abs_path query : list ascii) :
  response_in_table (trace_of (resolve w abs_path query)).
Proof.
  rewrite resolve_decoded.
  destruct (access_F w _); cbn [negb trace_of]; auto with responses.
  destruct (is_directory w _); auto with responses.
  destruct (rev (cstr abs_path)) as [|final tail];
    cbn [trace_of]; auto with responses.
  destruct (Ascii.eqb final "/"); cbn [negb trace_of].
  - destruct (indexes w _); cbn [trace_of]; auto with responses.
  - unfold redirect. auto with responses.
Qed.

Lemma serve_in_table (message abs0 q0 : list ascii) :
  response_in_table (trace_of (serve w message abs0 q0)).
Proof.
  unfold serve. destruct (strstr (cstr message) CRLF) as [needle|];
    cbn [trace_of]; auto with responses.
  assert (H : forall o, response_in_table (trace_of o) ->
    response_in_table
      (trace_of (after [Log (firstn (needle + 2) (cstr message))] o))).
  { intros [t|t] Ht; exact Ht. }
  apply H. destruct (parse _ abs0 q0) as [|code|a q]; cbn [trace_of];
    auto using resolve_in_table with responses.
Qed.

End Handlers.

(** C8 (as the code has it).  Whatever the request, the server writes to
    the client either nothing or one response whose status code is in the
    closed set, which is the set of codes for which [reason] has a phrase.
    [respond] and [error] do nothing at all, neither write nor log, for
    every code whose value as [unsigned short] (the code modulo 65536, as
    [reason] receives it) has no phrase. *)
Theorem responses_use_table_codes :
  (forall w reads abs0 q0 o,
      connection w reads abs0 q0 = Some o -> response_in_table (trace_of o))
  /\ (forall w message abs0 q0,
        response_in_table (trace_of (serve w message abs0 q0)))
  /\ (forall code, reason code <> None <-> In code status_codes)
  /\ (forall code headers body n,
        reason (to_ushort code) = None -> respond code headers body n = [])
  /\ (forall code, reason (to_ushort code) = None -> error code = [])
  /\ (forall code headers body n,
        (0 <= code < 65536)%Z -> ~ In code status_codes ->
        respond code headers body n = [] /\ error code = []).
Proof.
  split.
  { intros w reads abs0 q0 o H. unfold connection in H.
    destruct (request reads) as [message n| |]; [| |discriminate];
      injection H as <-; [apply serve_in_table | now left]. }
  split; [exact serve_in_table|].
  split; [exact reason_table|].
  assert (Hr : forall code headers body n,
    reason (to_ushort code) = None -> respond code headers body n = []).
  { intros code headers body n H. unfold respond. now rewrite H. }
  assert (He : forall code, reason (to_ushort code) = None -> error code = []).
  { intros code H. unfold error. now rewrite H. }
  split; [exact Hr|]. split; [exact He|].
  intros code headers body n Hc Hout.
  assert (Hnone : reason (to_ushort code) = None).
  { rewrite to_ushort_small by assumption.
    destruct (reason code) eqn:E; [|reflexivity].
    destruct Hout. apply reason_table. congruence. }
  split; [now apply Hr | now apply He].
Qed.

Lemma responses_use_table_codes_witness :
  (respond 299 (cs "X: y" ++ CRLF) (cs "body") 4 = [] /\ error 299 = [])
  /\ response_in_table
       (trace_of (serve site (cs "GET /missing HTTP/1.1" ++ CRLF)
                    blank_buffer blank_buffer)).
Proof.
  split.
  - refine (proj2 (proj2 (proj2 (proj2 (proj2 responses_use_table_codes))))
              299%Z (cs "X: y" ++ CRLF) (cs "body") 4 _ _).
    + split; [discriminate | reflexivity].
    + intros H. simpl in H.
      repeat (destruct H as [H|H]; [discriminate H|]). exact H.
  - refine (proj1 responses_use_table_codes site
              [ReadBytes (cs "GET /missing HTTP/1.1" ++ CRLF ++ CRLF)]
              blank_buffer blank_buffer _ _).
    vm_compute. reflexivity.
Defined.

(** An [int] outside the closed set whose low sixteen bits are 200:
    [respond] writes a status line carrying that code. *)
Lemma respond_wraps_code :
  ~ In 65736%Z status_codes
  /\ respond 65736 [] [] 0 <> []
  /\ sent (respond 65736 [] [] 0) = cs "HTTP/1.1 65736 OK" ++ CRLF ++ CRLF.
Proof.
  split.
  - intros H. simpl in H.
    repeat (destruct H as [H|H]; [discriminate H|]). exact H.
  - split; [vm_compute; discriminate | vm_compute; reflexivity].
Qed.

(** ** [request]: the limits that are enforced *)

Lemma prefixb_split_at (n s : list ascii) :
  prefixb n s = true -> s = n ++ skipn (length n) s.
Proof.
  intros H. destruct (prefixb_split _ _ H) as [rest ->].
  now rewrite skipn_app, skipn_all, Nat.sub_diag.
Qed.

Lemma strstr_split (h n : list ascii) (k : nat) :
  strstr h n = Some k ->
  h = firstn k h ++ n ++ skipn (k + length n) h.
Proof.
  revert k; induction h as [|c h IH]; intros k H; simpl in H.
  - destruct n; [|discriminate]. now injection H as <-.
  - destruct (prefixb n (c :: h)) eqn:E.
    + injection H as <-. cbn [firstn app Nat.add].
      now apply prefixb_split_at.
    + destruct (strstr h n) as [j|] eqn:Hj; [|discriminate].
      injection H as <-. cbn [firstn app Nat.add skipn].
      f_equal. now apply IH.
Qed.

(** When the field loop reaches the end of the message, the text it went
    through is a sequence of lines, each ended by CRLF and no longer than
    [LimitRequestFieldSize] with it. *)
Lemma scan_fields_lines (fuel : nat) :
  forall haystack,
    scan_fields fuel haystack = true ->
    exists lines,
      haystack = concat (map (fun l => l ++ CRLF) lines)
      /\ Forall (fun l =>
                   (Z.of_nat (length l) + 2 <= LimitRequestFieldSize)%Z)
           lines.
Proof.
  induction fuel as [|fuel IH]; intros [|c s] H; cbn [scan_fields] in H;
    try discriminate; try (now exists []).
  destruct (strstr (c :: s) CRLF) as [j|] eqn:Hs; [|discriminate].
  destruct (Z.of_nat j + 2 >? LimitRequestFieldSize)%Z eqn:Hsz;
    [discriminate|].
  destruct (IH _ H) as (lines & Hl & Hf).
  exists (firstn j (c :: s) :: lines). split.
  - cbn [map concat]. rewrite <- Hl, <- app_assoc.
    exact (strstr_split _ _ _ Hs).
  - constructor; [|exact Hf].
    pose proof (strstr_bound _ _ _ Hs) as Hb.
    rewrite length_firstn.
    rewrite Z.gtb_ltb in Hsz. apply Z.ltb_ge in Hsz. lia.
Qed.

(** A framed message is what [request] reports as its length, starts with
    a request-line of at most [LimitRequestLine] bytes, and continues
    with header lines within [LimitRequestFieldSize].  Their number is not
    bounded. *)
Lemma request_loop_framed (reads : list read_result) :
  forall acc message n,
    request_loop reads acc = Framed message n ->
    n = length message
    /\ exists needle lines,
         strstr (cstr message) CRLF = Some needle
         /\ (Z.of_nat needle + 2 <= LimitRequestLine)%Z
         /\ cstr (skipn (needle + 2) message)
            = concat (map (fun l => l ++ CRLF) lines)
         /\ Forall (fun l =>
                      (Z.of_nat (length l) + 2 <= LimitRequestFieldSize)%Z)
              lines.
Proof.
  induction reads as [|r reads IH]; intros acc message n H;
    cbn [request_loop] in H.
  - destruct (negb _); discriminate.
  - destruct (negb _); [discriminate|].
    destruct r as [|buffer]; [discriminate|].
    set (start := length acc - (if (length acc <? 3)%nat
                                then length acc else 3)) in *.
    destruct (strstr (cstr (skipn start (acc ++ buffer))) CRLFCRLF)
      as [k|] eqn:Hk; [|exact (IH _ _ _ H)].
    destruct (strstr (cstr (firstn (start + k + 2) (acc ++ buffer))) CRLF)
      as [needle|] eqn:Hn; [|discriminate].
    destruct (Z.of_nat needle + 2 >? LimitRequestLine)%Z eqn:Hsz;
      [discriminate|].
    destruct (scan_fields _ _) eqn:Hscan; cbn [negb] in H; [|discriminate].
    destruct (0 >? LimitRequestFields)%Z; [discriminate|].
    injection H as <- <-.
    pose proof (strstr_bound _ _ _ Hk) as Hb.
    pose proof (cstr_length (skipn start (acc ++ buffer))) as Hc.
    rewrite length_skipn in Hc. simpl in Hb.
    split.
    + rewrite length_firstn. lia.
    + destruct (scan_fields_lines _ _ Hscan) as (lines & Hl & Hf).
      exists needle, lines. repeat split; try assumption.
      rewrite Z.gtb_ltb in Hsz. apply Z.ltb_ge in Hsz. lia.
Qed.

(* ================================================================= *)
(** * Further properties *)

(** ** [urldecode] on text without escapes *)

Lemma decode_plain_app (a rest : list ascii) :
  ~ In "%"%char a -> decode (a ++ rest) = map plus_to_space a ++ decode rest.
Proof.
  induction a as [|c a IH]; intros H; [reflexivity|].
  cbn [app decode map]. unfold plus_to_space at 1.
  destruct (Ascii.eqb_spec c "%") as [->|_]; [destruct H; now left|].
  rewrite IH by (intros F; apply H; now right).
  destruct (Ascii.eqb c "+"); reflexivity.
Qed.

Lemma map_plus_clean (a : list ascii) :
  ~ In NUL a -> ~ In NUL (map plus_to_space a).
Proof.
  intros H F. apply in_map_iff in F as (c & E & Hc).
  unfold plus_to_space in E. destruct (Ascii.eqb c "+").
  - discriminate E.
  - subst c. contradiction.
Qed.

Lemma map_plus_id (a : list ascii) :
  ~ In "+"%char a -> map plus_to_space a = a.
Proof.
  induction a as [|c a IH]; intros H; [reflexivity|].
  cbn [map]. unfold plus_to_space at 1.
  destruct (Ascii.eqb_spec c "+") as [->|_]; [destruct H; now left|].
  now rewrite IH by (intros F; apply H; now right).
Qed.

(** X1.  On a string without ['%'], [urldecode] only turns each ['+']
    into a space: the decoded string has the length of the input, and a
    string with neither ['%'] nor ['+'] nor NUL comes back unchanged. *)
Theorem urldecode_without_percent :
  forall s : list ascii,
    ~ In "%"%char s ->
    urldecode s = Some (map plus_to_space s ++ [NUL])
    /\ length (decode s) = length s
    /\ (~ In "+"%char s -> ~ In NUL s ->
        option_map cstr (urldecode s) = Some s).
Proof.
  intros s H.
  assert (E : decode s = map plus_to_space s).
  { rewrite <- (app_nil_r s) at 1. rewrite decode_plain_app by assumption.
    apply app_nil_r. }
  assert (L : length (decode s) = length s) by (now rewrite E, length_map).
  split; [|split; [exact L|]].
  - rewrite urldecode_total, L, E.
    replace (length s + 1 - length s) with 1 by lia. reflexivity.
  - intros Hp Hn. rewrite urldecode_total. cbn [option_map].
    rewrite cstr_zero_padded, E, map_plus_id by assumption.
    now rewrite cstr_clean.
Qed.

Lemma urldecode_without_percent_witness :
  urldecode (cs "/a+b/c.html") = Some (cs "/a b/c.html" ++ [NUL])
  /\ option_map cstr (urldecode (cs "/img/logo.png")) = Some (cs "/img/logo.png").
Proof.
  split.
  - refine (proj1 (urldecode_without_percent (cs "/a+b/c.html") _)).
    apply not_In_via_strchr. vm_compute. reflexivity.
  - refine (proj2 (proj2 (urldecode_without_percent (cs "/img/logo.png") _))
              _ _);
      apply not_In_via_strchr; vm_compute; reflexivity.
Defined.

(** X2.  An encoded NUL ([%00]) ends the decoded path: when the stored
    path is [front], [%00] and anything else, with no ['%'] and no NUL in
    [front], the local path that [main] resolves is the root followed by
    [front] alone (its ['+'] turned into spaces). *)
Theorem encoded_nul_cuts_path :
  forall (w : World) (abs_path front back : list ascii),
    cstr abs_path = front ++ cs "%00" ++ back ->
    ~ In "%"%char front ->
    resolved_path w abs_path = root w ++ map plus_to_space front.
Proof.
  intros w abs_path front back E Hp.
  assert (Hn : ~ In NUL front).
  { intros F. apply (cstr_no_nul abs_path). rewrite E.
    apply in_or_app. now left. }
  unfold resolved_path. rewrite E, decode_plain_app by assumption.
  f_equal. change (decode (cs "%00" ++ back)) with (NUL :: decode back).
  apply cstr_terminated. now apply map_plus_clean.
Qed.

Lemma encoded_nul_cuts_path_witness :
  resolved_path site (cs "/app.php%00.png" ++ [NUL]) = cs "/srv/www/app.php".
Proof.
  refine (encoded_nul_cuts_path site (cs "/app.php%00.png" ++ [NUL])
            (cs "/app.php") (cs ".png") _ _).
  - vm_compute. reflexivity.
  - apply not_In_via_strchr. vm_compute. reflexivity.
Defined.

(** ** [htmlspecialchars]: what the escaped text is made of *)

Lemma escape_clean (c : ascii) :
  forallb (fun x => negb (markup x)) (escape c) = true.
Proof.
  destruct c as [[] [] [] [] [] [] [] []]; vm_compute; reflexivity.
Qed.

Lemma escape_length (c : ascii) : 1 <= length (escape c).
Proof.
  destruct c as [[] [] [] [] [] [] [] []]; vm_compute; lia.
Qed.

(** X3.  The text [htmlspecialchars] returns holds no ['<'], ['>'],
    double quote or single quote, whatever the input; escaping goes
    through concatenation, and never shortens the text. *)
Theorem htmlspecialchars_no_markup :
  (forall s c, In c (htmlspecialchars s) -> markup c = false)
  /\ (forall a b,
        htmlspecialchars (a ++ b) = htmlspecialchars a ++ htmlspecialchars b)
  /\ (forall s, length s <= length (htmlspecialchars s)).
Proof.
  split; [|split].
  - intros s c H. rewrite htmlspecialchars_flat_map in H.
    apply in_flat_map in H as (x & _ & Hx).
    pose proof (escape_clean x) as Hc.
    rewrite forallb_forall in Hc. specialize (Hc _ Hx).
    now apply negb_true_iff in Hc.
  - intros a b. rewrite !htmlspecialchars_flat_map. apply flat_map_app.
  - intros s. rewrite htmlspecialchars_flat_map.
    induction s as [|c s IH]; simpl; [lia|].
    rewrite length_app. pose proof (escape_length c). lia.
Qed.

Lemma htmlspecialchars_no_markup_witness :
  markup "&" = false.
Proof.
  refine (proj1 htmlspecialchars_no_markup (cs "<b>") "&"%char _).
  vm_compute. tauto.
Defined.

Lemma special_cases (c : ascii) :
  special c = true ->
  c = "&"%char \/ c = DQUOTE \/ c = SQUOTE \/ c = "<"%char \/ c = ">"%char.
Proof.
  unfold special. rewrite !orb_true_iff, !Ascii.eqb_eq. tauto.
Qed.

Lemma escape_special_head (c : ascii) :
  special c = true -> exists tail, escape c = "&"%char :: tail.
Proof.
  intros H.
  destruct (special_cases c H) as [->|[->|[->|[->| ->]]]];
    eexists; reflexivity.
Qed.

(** The entities form a prefix code. *)
Lemma escape_head_inj (c1 c2 : ascii) (r1 r2 : list ascii) :
  escape c1 ++ r1 = escape c2 ++ r2 -> c1 = c2 /\ r1 = r2.
Proof.
  intros H.
  destruct (special c1) eqn:S1, (special c2) eqn:S2.
  - destruct (special_cases c1 S1) as [->|[->|[->|[->| ->]]]];
      destruct (special_cases c2 S2) as [->|[->|[->|[->| ->]]]];
      try discriminate H;
      (split; [reflexivity | exact (app_inv_head _ _ _ H)]).
  - destruct (escape_special_head c1 S1) as [t1 E1].
    rewrite E1, (escape_plain c2 S2) in H. injection H as <- _.
    discriminate S2.
  - destruct (escape_special_head c2 S2) as [t2 E2].
    rewrite E2, (escape_plain c1 S1) in H. injection H as -> _.
    discriminate S1.
  - rewrite (escape_plain c1 S1), (escape_plain c2 S2) in H.
    injection H as -> ->. now split.
Qed.

(** X4.  [htmlspecialchars] loses nothing: two strings with the same
    escaped text are the same string. *)
Theorem htmlspecialchars_injective :
  forall s1 s2 : list ascii,
    htmlspecialchars s1 = htmlspecialchars s2 -> s1 = s2.
Proof.
  intros s1 s2. rewrite !htmlspecialchars_flat_map.
  revert s2; induction s1 as [|c1 s1 IH]; intros [|c2 s2] H; cbn in H.
  - reflexivity.
  - pose proof (escape_length c2) as L.
    apply (f_equal (@length ascii)) in H. rewrite length_app in H.
    simpl in H. lia.
  - pose proof (escape_length c1) as L.
    apply (f_equal (@length ascii)) in H. rewrite length_app in H.
    simpl in H. lia.
  - destruct (escape_head_inj _ _ _ _ H) as [-> Hr].
    f_equal. now apply IH.
Qed.

Lemma htmlspecialchars_injective_witness :
  cs "a<b" = cs "a<b".
Proof.
  apply (htmlspecialchars_injective (cs "a<b") (cs "a<b")). reflexivity.
Defined.

(** ** [lookup]: what the type depends on *)

Lemma tolower_idem (c : ascii) : tolower (tolower c) = tolower c.
Proof.
  destruct c as [[] [] [] [] [] [] [] []]; vm_compute; reflexivity.
Qed.

Lemma tolower_dot (c : ascii) : Ascii.eqb (tolower c) "." = Ascii.eqb c ".".
Proof.
  destruct c as [[] [] [] [] [] [] [] []]; vm_compute; reflexivity.
Qed.

Lemma strrchr_tolower (s : list ascii) :
  strrchr (map tolower s) "." = strrchr s ".".
Proof.
  induction s as [|c s IH]; simpl; [reflexivity|].
  now rewrite IH, tolower_dot.
Qed.

Lemma strcasecmp_tolower (a b : list ascii) :
  strcasecmp_eq (map tolower a) b = strcasecmp_eq a b.
Proof.
  unfold strcasecmp_eq. rewrite map_map. f_equal.
  apply map_ext. exact tolower_idem.
Qed.

Lemma strrchr_app (a b : list ascii) (c : ascii) :
  strrchr (a ++ b) c
  = match strrchr b c with
    | Some k => Some (length a + k)
    | None => strrchr a c
    end.
Proof.
  induction a as [|x a IH]; simpl.
  - destruct (strrchr b c); reflexivity.
  - rewrite IH. destruct (strrchr b c); reflexivity.
Qed.

Lemma strrchr_present (s : list ascii) (c : ascii) :
  In c s -> exists k, strrchr s c = Some k.
Proof.
  intros H. destruct (strrchr s c) as [k|] eqn:E; [now exists k|].
  exfalso. revert H E. induction s as [|x s IH]; simpl; [tauto|].
  intros [->|H] E.
  - destruct (strrchr s c); [discriminate|].
    now rewrite Ascii.eqb_refl in E.
  - destruct (strrchr s c); [discriminate|]. now apply IH.
Qed.

Lemma skipn_past (a b : list ascii) (k : nat) :
  skipn (length a + k) (a ++ b) = skipn k b.
Proof.
  rewrite skipn_app, skipn_all2 by lia.
  now replace (length a + k - length a) with k by lia.
Qed.

(** X5.  [lookup] does not see the case of letters: a path and its
    lower-case form get the same answer. *)
Theorem lookup_ignores_case :
  forall path : list ascii, lookup (map tolower path) = lookup path.
Proof.
  intros path. unfold lookup. rewrite strrchr_tolower.
  destruct (strrchr path ".") as [dot|]; [|reflexivity].
  rewrite skipn_map, !strcasecmp_tolower. reflexivity.
Qed.

Lemma lookup_after_front (front name : list ascii) :
  In "."%char name -> lookup (front ++ name) = lookup name.
Proof.
  intros Hin. destruct (strrchr_present _ _ Hin) as [k Hk].
  unfold lookup. now rewrite strrchr_app, Hk, skipn_past.
Qed.

Lemma lookup_index_files (front : list ascii) :
  lookup (front ++ cs "/index.php") = LType (Some (cs "text/x-php"))
  /\ lookup (front ++ cs "/index.html") = LType (Some (cs "text/html")).
Proof.
  split; (rewrite lookup_after_front; [reflexivity | simpl; tauto]).
Qed.

(** X6.  [lookup] only depends on the text from the last ['.'] on: in
    front of a name that holds a ['.'], any directory part, dotted or
    not, leaves the answer unchanged.  So the two index files always have
    the types [text/x-php] and [text/html]. *)
Theorem lookup_uses_last_dot :
  forall front name : list ascii,
    In "."%char name ->
    lookup (front ++ name) = lookup name
    /\ lookup (front ++ cs "/index.php") = LType (Some (cs "text/x-php"))
    /\ lookup (front ++ cs "/index.html") = LType (Some (cs "text/html")).
Proof.
  intros front name Hin. split; [now apply lookup_after_front|].
  apply lookup_index_files.
Qed.

Lemma lookup_uses_last_dot_witness :
  lookup (cs "/srv/www.old/" ++ cs "Logo.PNG") = lookup (cs "Logo.PNG").
Proof.
  refine (proj1 (lookup_uses_last_dot (cs "/srv/www.old/") (cs "Logo.PNG") _)).
  simpl. tauto.
Defined.

(** ** First occurrences *)

Lemma strstr_found (h n : list ascii) (i : nat) :
  strstr h n = Some i ->
  prefixb n (skipn i h) = true
  /\ forall j, j < i -> prefixb n (skipn j h) = false.
Proof.
  revert i; induction h as [|c h IH]; intros i H; simpl in H.
  - destruct (prefixb n []) eqn:E; [|discriminate]. injection H as <-.
    split; [exact E | intros j Hj; lia].
  - destruct (prefixb n (c :: h)) eqn:E.
    + injection H as <-. split; [exact E | intros j Hj; lia].
    + destruct (strstr h n) as [k|] eqn:Hk; [|discriminate].
      injection H as <-. destruct (IH _ eq_refl) as [Hp Hb].
      split; [exact Hp|]. intros [|j] Hj; [exact E|].
      apply Hb. lia.
Qed.

Lemma strstr_absent (h n : list ascii) :
  strstr h n = None ->
  forall j, j <= length h -> prefixb n (skipn j h) = false.
Proof.
  induction h as [|c h IH]; intros H j Hj; simpl in H.
  - destruct (prefixb n []) eqn:E; [discriminate|].
    simpl in Hj. replace j with 0 by lia. exact E.
  - destruct (prefixb n (c :: h)) eqn:E; [discriminate|].
    destruct (strstr h n) eqn:Hk; [discriminate|].
    destruct j as [|j]; [exact E|]. apply (IH eq_refl). simpl in Hj. lia.
Qed.

Lemma strstr_first (h n : list ascii) (i : nat) :
  i <= length h ->
  prefixb n (skipn i h) = true ->
  (forall j, j < i -> prefixb n (skipn j h) = false) ->
  strstr h n = Some i.
Proof.
  revert i; induction h as [|c h IH]; intros i Hi Hp Hb.
  - simpl in Hi. replace i with 0 in * by lia. simpl in *. now rewrite Hp.
  - destruct i as [|i].
    + simpl in *. now rewrite Hp.
    + cbn [strstr]. pose proof (Hb 0 ltac:(lia)) as H0. cbn [skipn] in H0.
      rewrite H0.
      rewrite (IH i); [reflexivity| simpl in Hi; lia | exact Hp |].
      intros j Hj. apply (Hb (S j)). lia.
Qed.

Lemma strstr_none (h n : list ascii) :
  (forall j, j <= length h -> prefixb n (skipn j h) = false) ->
  strstr h n = None.
Proof.
  intros H. destruct (strstr h n) as [i|] eqn:E; [|reflexivity].
  destruct (strstr_found _ _ _ E) as [Hp _].
  pose proof (strstr_bound _ _ _ E). rewrite H in Hp by lia. discriminate.
Qed.

Lemma prefixb_app_mono (n s x : list ascii) :
  prefixb n s = true -> prefixb n (s ++ x) = true.
Proof.
  intros H. rewrite prefixb_app_long; [exact H | now apply prefixb_length].
Qed.

Lemma strchr_app_l (a b : list ascii) (c : ascii) (k : nat) :
  strchr a c = Some k -> strchr (a ++ b) c = Some k.
Proof.
  revert k; induction a as [|x a IH]; intros k H; simpl in *;
    [discriminate|].
  destruct (Ascii.eqb x c); [exact H|].
  destruct (strchr a c) as [j|]; [|discriminate].
  now rewrite (IH j eq_refl).
Qed.

Lemma strchr_app_r (a b : list ascii) (c : ascii) :
  strchr a c = None ->
  strchr (a ++ b) c = option_map (fun k => length a + k) (strchr b c).
Proof.
  induction a as [|x a IH]; intros H; simpl in *.
  - destruct (strchr b c); reflexivity.
  - destruct (Ascii.eqb x c); [discriminate|].
    destruct (strchr a c); [discriminate|].
    rewrite (IH eq_refl). destruct (strchr b c); reflexivity.
Qed.

Lemma store_fits (buf data : list ascii) (off : nat) :
  off + length data <= length buf ->
  exists r, store buf off data = Some r /\ length r = length buf.
Proof.
  intros H. unfold store.
  destruct (Nat.leb_spec (off + length data) (length buf)); [|lia].
  eexists. split; [reflexivity|].
  rewrite !length_app, length_firstn, length_skipn. lia.
Qed.

Lemma strncpy_fits (dst src : list ascii) (n : nat) :
  n <= length dst ->
  exists r, strncpy dst src n = Some r /\ length r = length dst.
Proof.
  intros H. unfold strncpy. apply store_fits.
  rewrite length_firstn, length_app, repeat_length. lia.
Qed.

(** ** [parse]: the request lines it accepts *)

Lemma prefixb_pair_app (x y c : ascii) (s r : list ascii) :
  prefixb [x; y] s = false -> x <> c -> y <> c ->
  prefixb [x; y] (s ++ c :: r) = false.
Proof.
  intros Hs Hx Hy. destruct s as [|a [|b s]]; cbn in *.
  - now rewrite (proj2 (Ascii.eqb_neq x c) Hx).
  - rewrite (proj2 (Ascii.eqb_neq y c) Hy). now rewrite !andb_false_r.
  - exact Hs.
Qed.

Lemma firstn_exact (a b : list ascii) : firstn (length a) (a ++ b) = a.
Proof.
  rewrite firstn_app, Nat.sub_diag, firstn_all. cbn. apply app_nil_r.
Qed.

(** The first CRLF of a well-formed request line is its last two bytes. *)
Lemma strstr_request_line (target : list ascii) :
  strstr target CRLF = None ->
  strstr (cs "GET " ++ target ++ cs " HTTP/1.1" ++ CRLF) CRLF
  = Some (4 + length target + 9).
Proof.
  intros Hnone.
  pose proof (strstr_absent _ _ Hnone) as Habs.
  assert (Hmid : forall j, j <= length target ->
            prefixb CRLF (skipn j (target ++ cs " HTTP/1.1" ++ CRLF)) = false).
  { intros j Hj. rewrite skipn_app.
    replace (j - length target) with 0 by lia.
    apply prefixb_pair_app; [now apply Habs | discriminate | discriminate]. }
  assert (Htail : forall d, d <= 9 ->
            prefixb CRLF (skipn (length target + d)
                            (target ++ cs " HTTP/1.1" ++ CRLF))
            = Nat.eqb d 9).
  { intros d Hd. rewrite skipn_past.
    do 10 (destruct d as [|d]; [reflexivity|]). lia. }
  apply strstr_first.
  - rewrite !length_app. simpl. lia.
  - replace (4 + length target + 9) with (4 + (length target + 9)) by lia.
    change (cs "GET ") with ["G"; "E"; "T"; " "]%char.
    cbn [app]. cbn [Nat.add skipn]. now rewrite Htail by lia.
  - intros j Hj. change (cs "GET ") with ["G"; "E"; "T"; " "]%char.
    cbn [app].
    do 4 (destruct j as [|j]; [reflexivity|]). cbn [skipn].
    destruct (Nat.le_gt_cases j (length target)) as [Hle|Hgt].
    + now apply Hmid.
    + replace j with (length target + (j - length target)) by lia.
      rewrite Htail by lia. apply Nat.eqb_neq. lia.
Qed.

Lemma parse_request_line_returns :
  forall target abs0 q0 : list ascii,
    prefixb (cs "/") target = true ->
    ~ In DQUOTE target ->
    ~ In NUL target ->
    strstr target CRLF = None ->
    length target < length abs0 ->
    length target < length q0 ->
    ~ In NUL (cs "GET " ++ target ++ cs " HTTP/1.1" ++ CRLF)
    /\ strrchr (cs "GET " ++ target ++ cs " HTTP/1.1" ++ CRLF) " "
       = Some (4 + length target)
    /\ request_target (cs "GET " ++ target ++ cs " HTTP/1.1" ++ CRLF)
         3 (4 + length target) = target
    /\ exists a q,
         parse (cs "GET " ++ target ++ cs " HTTP/1.1" ++ CRLF) abs0 q0
         = POk a q.
Proof.
  intros target abs0 q0 Hslash Hquote Hnul Hcrlf Ha Hq.
  set (line := cs "GET " ++ target ++ cs " HTTP/1.1" ++ CRLF).
  assert (H1 : strchr line " " = Some 3) by reflexivity.
  assert (H2 : strrchr line " " = Some (4 + length target)).
  { unfold line. rewrite strrchr_app, strrchr_app.
    change (strrchr (cs " HTTP/1.1" ++ CRLF) " ") with (Some 0).
    cbv iota. change (length (cs "GET ")) with 4. f_equal. lia. }
  assert (H3 : request_target line 3 (4 + length target) = target).
  { unfold request_target, requestSize, line.
    replace (Z.to_nat (Z.of_nat (4 + length target) - Z.of_nat 3 - 1))
      with (length target) by lia.
    change (skipn (3 + 1) (cs "GET " ++ target ++ cs " HTTP/1.1" ++ CRLF))
      with (target ++ cs " HTTP/1.1" ++ CRLF).
    apply firstn_exact. }
  assert (H4 : strstr line CRLF = Some (4 + length target + 9))
    by (now apply strstr_request_line).
  assert (H5 : skipn (4 + length target + 1) line = cs "HTTP/1.1" ++ CRLF).
  { unfold line. change (cs "GET ") with ["G"; "E"; "T"; " "]%char.
    cbn [app]. replace (4 + length target + 1) with (4 + (length target + 1))
      by lia.
    cbn [Nat.add skipn]. now rewrite skipn_past. }
  assert (Hline : ~ In NUL line).
  { unfold line. rewrite !in_app_iff. intros [F|[F|[F|F]]]; [|tauto| |];
      simpl in F; repeat (destruct F as [F|F]; [discriminate F|]);
      destruct F. }
  assert (Hok : exists a q, parse line abs0 q0 = POk a q).
  { unfold parse. rewrite H1.
    change (firstn 3 line) with (cs "GET"). cbn [streq negb].
    change (Ascii.eqb "G" "G" && (Ascii.eqb "E" "E" &&
              (Ascii.eqb "T" "T" && true))) with true.
    cbn [negb]. rewrite H2, H3.
    replace (requestSize 3 (4 + length target) <? 0)%Z with false
      by (symmetry; apply Z.ltb_ge; unfold requestSize; lia).
    rewrite Hslash. cbn [negb].
    rewrite (strchr_absent target DQUOTE Hquote), H4.
    replace (Z.of_nat (4 + length target + 9)
             - Z.of_nat (4 + length target) + 2)%Z with 11%Z by lia.
    change (11 <? 0)%Z with false. cbv iota. rewrite H5.
    change (negb (streq (firstn (Z.to_nat 11) (cs "HTTP/1.1" ++ CRLF))
                    (cs "HTTP/1.1" ++ CRLF))) with false.
    cbv iota.
    destruct (strchr target "?") as [j|] eqn:Hj.
    - destruct (strchr_split _ _ _ Hj) as (_ & _ & Hjl).
      assert (Hq1 : strchr line "?" = Some (4 + j)).
      { unfold line. rewrite strchr_app_r by reflexivity.
        now rewrite (strchr_app_l _ _ _ _ Hj). }
      rewrite Hq1.
      destruct (strncpy_fits abs0 (skipn (3 + 1) line) (4 + j - 3 - 1))
        as (a1 & -> & La1); [lia|].
      destruct (store_fits a1 [NUL] (4 + j - 3 - 1)) as (a2 & -> & _);
        [simpl; lia|].
      destruct (strncpy_fits q0 (skipn (4 + j + 1) line)
                  (4 + length target - (4 + j)))
        as (q1 & -> & Lq1); [lia|].
      destruct (store_fits q1 [NUL] (4 + length target - (4 + j)))
        as (q2 & -> & _); [simpl; lia|].
      now exists a2, q2.
    - destruct (store_fits abs0 (target ++ [NUL]) 0) as (a1 & E & _).
      { rewrite length_app. simpl. lia. }
      unfold strcpy. rewrite E. now exists a1, q0. }
  repeat split; assumption.
Qed.

(** X7.  [parse] accepts every line made of [GET], a space, a
    request-target, a space, [HTTP/1.1] and CRLF, when the target starts
    with a slash and holds no double quote, no NUL and no CRLF and the two
    buffers can take it; it then stores the target up to its first
    question mark as the absolute path. *)
Theorem parse_accepts_request_line :
  forall target abs0 q0 : list ascii,
    prefixb (cs "/") target = true ->
    ~ In DQUOTE target ->
    ~ In NUL target ->
    strstr target CRLF = None ->
    length target < length abs0 ->
    length target < length q0 ->
    exists a q,
      parse (cs "GET " ++ target ++ cs " HTTP/1.1" ++ CRLF) abs0 q0 = POk a q
      /\ cstr a = path_part target
      /\ match query_part target with
         | Some text => cstr q = text ++ cs " "
         | None => q = q0
         end.
Proof.
  intros target abs0 q0 Hslash Hquote Hnul Hcrlf Ha Hq.
  destruct (parse_request_line_returns target abs0 q0 Hslash Hquote Hnul
              Hcrlf Ha Hq) as (Hline & H2 & H3 & a & q & Hp).
  exists a, q. split; [exact Hp|].
  destruct (parse_accepts _ _ _ _ _ Hline Hp)
    as (k & _ & Hk & _ & Hpath & Hquery).
  rewrite H2 in Hk. injection Hk as Hk.
  replace k with (length target) in * by lia.
  rewrite H3 in *. split; [exact Hpath | exact Hquery].
Qed.

Lemma parse_accepts_request_line_witness :
  exists a q,
    parse (cs "GET " ++ cs "/a b/c" ++ cs " HTTP/1.1" ++ CRLF)
      blank_buffer stale_buffer = POk a q
    /\ cstr a = path_part (cs "/a b/c")
    /\ match query_part (cs "/a b/c") with
       | Some text => cstr q = text ++ cs " "
       | None => q = stale_buffer
       end.
Proof.
  apply (parse_accepts_request_line (cs "/a b/c") blank_buffer stale_buffer);
    try (apply not_In_via_strchr); try (apply Nat.ltb_lt);
    vm_compute; reflexivity.
Defined.

(** X8.  [parse] accepts nothing else: a line for which it returns true
    is exactly [GET], a space, a request-target, a space, [HTTP/1.1] and
    CRLF, where the target starts with a slash and holds neither a double
    quote nor a CRLF. *)
Theorem parse_accepted_form :
  forall line abs0 q0 a q : list ascii,
    parse line abs0 q0 = POk a q ->
    exists target,
      line = cs "GET " ++ target ++ cs " HTTP/1.1" ++ CRLF
      /\ prefixb (cs "/") target = true
      /\ ~ In DQUOTE target
      /\ strstr target CRLF = None.
Proof.
  intros line abs0 q0 a q H. unfold parse in H.
  destruct (strchr line " ") as [fs|] eqn:Hfs; [|discriminate].
  destruct (streq (firstn fs line) (cs "GET")) eqn:Hm;
    cbn [negb] in H; [|discriminate].
  destruct (request_line_method _ _ Hfs Hm) as (-> & rest & ->).
  destruct (strrchr (cs "GET " ++ rest) " ") as [ss|] eqn:Hss;
    [|discriminate].
  simpl in Hss.
  destruct (strrchr rest " ") as [k|] eqn:Hr;
    injection Hss as <-; [|cbn in H; discriminate].
  destruct (strrchr_split _ _ _ Hr) as (Erest & _ & Hklt).
  assert (Htarget : request_target (cs "GET " ++ rest) 3 (S (S (S (S k))))
                    = firstn k rest).
  { unfold request_target, requestSize.
    cbn [cs list_ascii_of_string app skipn Nat.add]. f_equal. lia. }
  rewrite Htarget in H.
  replace (requestSize 3 (S (S (S (S k)))) <? 0)%Z with false in H
    by (symmetry; apply Z.ltb_ge; unfold requestSize; lia).
  destruct (prefixb (cs "/") (firstn k rest)) eqn:Hslash;
    cbn [negb] in H; [|discriminate].
  destruct (strchr (firstn k rest) DQUOTE) eqn:Hquote; [discriminate|].
  destruct (strstr (cs "GET " ++ rest) CRLF) as [clrf|] eqn:Hclrf;
    [|discriminate].
  destruct (Z.of_nat clrf - Z.of_nat (S (S (S (S k)))) + 2 <? 0)%Z eqn:Hv;
    [discriminate|].
  apply Z.ltb_ge in Hv.
  destruct (streq _ _) eqn:Hversion in H; cbn [negb] in H; [|discriminate].
  clear H. apply streq_eq in Hversion.
  change (skipn (S (S (S (S k))) + 1) (cs "GET " ++ rest))
    with (skipn (k + 1) rest) in Hversion.
  set (target := firstn k rest) in *.
  set (v := skipn (k + 1) rest) in *.
  set (vl := Z.to_nat (Z.of_nat clrf - Z.of_nat (S (S (S (S k)))) + 2)) in *.
  assert (Hlen : length target = k)
    by (unfold target; rewrite length_firstn; lia).
  destruct (strstr_found _ _ _ Hclrf) as [Hat Hbefore].
  (* the text after the last space is the version and nothing more *)
  assert (Hv10 : v = cs "HTTP/1.1" ++ CRLF).
  { destruct (Nat.le_gt_cases (length v) vl) as [Hle|Hgt].
    - now rewrite firstn_all2 in Hversion.
    - exfalso.
      assert (Hvl : vl = 10).
      { apply (f_equal (@length ascii)) in Hversion.
        rewrite length_firstn in Hversion. simpl in Hversion. lia. }
      assert (Hc : clrf = 4 + (k + (1 + 7))) by lia.
      rewrite Erest, Hc in Hat.
      change (cs "GET ") with ["G"; "E"; "T"; " "]%char in Hat.
      cbn [app Nat.add skipn] in Hat. fold target in Hat.
      rewrite <- Hlen in Hat at 1. rewrite skipn_past in Hat.
      cbn [Nat.add skipn] in Hat. fold v in Hat.
      rewrite <- (firstn_skipn vl v), Hversion in Hat.
      cbn in Hat. discriminate Hat. }
  exists target. split; [|split; [exact Hslash|split]].
  - rewrite Erest at 1. fold target v. now rewrite Hv10.
  - now apply not_In_via_strchr.
  - apply strstr_none. intros j Hj.
    destruct (prefixb CRLF (skipn j target)) eqn:E; [|reflexivity].
    exfalso.
    assert (Hvl : 10 <= vl).
    { apply (f_equal (@length ascii)) in Hversion.
      rewrite length_firstn in Hversion. simpl in Hversion. lia. }
    assert (Hlt : 4 + j < clrf) by lia.
    specialize (Hbefore _ Hlt).
    rewrite Erest in Hbefore.
    change (cs "GET ") with ["G"; "E"; "T"; " "]%char in Hbefore.
    cbn [app Nat.add skipn] in Hbefore. fold target in Hbefore.
    rewrite skipn_app in Hbefore.
    rewrite (prefixb_app_mono _ _ _ E) in Hbefore. discriminate.
Qed.

Lemma parse_accepted_form_witness :
  exists target,
    cs "GET /a/b?x=1 HTTP/1.1" ++ CRLF
    = cs "GET " ++ target ++ cs " HTTP/1.1" ++ CRLF
    /\ prefixb (cs "/") target = true
    /\ ~ In DQUOTE target
    /\ strstr target CRLF = None.
Proof.
  apply (parse_accepted_form (cs "GET /a/b?x=1 HTTP/1.1" ++ CRLF)
           blank_buffer blank_buffer
           (cs "/a/b" ++ skipn 4 blank_buffer)
           (cs "x=1 " ++ skipn 4 blank_buffer)).
  vm_compute. reflexivity.
Defined.

(** ** [parse]: when it leaves defined behaviour *)




(** ** [request]: what a framed message is *)

Lemma cstr_skipn (s : list ascii) (n : nat) :
  n <= length (cstr s) -> cstr (skipn n s) = skipn n (cstr s).
Proof.
  revert n; induction s as [|c s IH]; intros n H.
  - now destruct n.
  - destruct n as [|n]; [reflexivity|].
    simpl in *. destruct (is_nul c); simpl in *; [lia|].
    apply IH. lia.
Qed.

(** X10.  The message [request] hands to [main] has the length it
    reports and, read as a string, is a request-line of at most
    [LimitRequestLine] bytes followed by header lines of at most
    [LimitRequestFieldSize] bytes each, CRLF included; in particular it
    holds a CRLF, so the 500 answer of [main] for a message without one
    is never reached. *)
Theorem request_framed_within_limits :
  forall (reads : list read_result) (message : list ascii) (n : nat),
    request reads = Framed message n ->
    n = length message
    /\ exists line fields,
         cstr message = line ++ CRLF ++ concat (map (fun l => l ++ CRLF) fields)
         /\ strstr (cstr message) CRLF = Some (length line)
         /\ (Z.of_nat (length line) + 2 <= LimitRequestLine)%Z
         /\ Forall (fun l =>
                      (Z.of_nat (length l) + 2 <= LimitRequestFieldSize)%Z)
              fields.
Proof.
  intros reads message n H.
  destruct (request_loop_framed _ _ _ _ H)
    as (Hn & needle & fields & Hneedle & Hline & Hfields & Hall).
  split; [exact Hn|].
  pose proof (strstr_bound _ _ _ Hneedle) as Hb. simpl in Hb.
  exists (firstn needle (cstr message)), fields.
  assert (Hl : length (firstn needle (cstr message)) = needle)
    by (rewrite length_firstn; lia).
  rewrite Hl. repeat split; try assumption.
  rewrite <- Hfields, cstr_skipn by lia.
  exact (strstr_split _ _ _ Hneedle).
Qed.

Lemma request_framed_within_limits_witness :
  322 = length (firstn 322 (get_with_fields 51))
  /\ exists line fields,
       cstr (firstn 322 (get_with_fields 51))
       = line ++ CRLF ++ concat (map (fun l => l ++ CRLF) fields)
       /\ strstr (cstr (firstn 322 (get_with_fields 51))) CRLF
          = Some (length line)
       /\ (Z.of_nat (length line) + 2 <= LimitRequestLine)%Z
       /\ Forall (fun l =>
                    (Z.of_nat (length l) + 2 <= LimitRequestFieldSize)%Z)
            fields.
Proof.
  apply (request_framed_within_limits [ReadBytes (get_with_fields 51)]).
  vm_compute. reflexivity.
Defined.

Lemma prefixb_through_cstr (n x : list ascii) (k : nat) :
  strstr (cstr x) n = Some k -> prefixb n (skipn k x) = true.
Proof.
  intros H. destruct (strstr_found _ _ _ H) as [Hp _].
  pose proof (strstr_bound _ _ _ H) as Hb.
  destruct (cstr_prefix x) as [r Hr]. rewrite Hr, skipn_app.
  now apply prefixb_app_mono.
Qed.

Lemma request_loop_received (reads : list read_result) :
  forall acc message n,
    request_loop reads acc = Framed message n ->
    exists front tail,
      message = front ++ CRLF
      /\ acc ++ received reads = message ++ CRLF ++ tail.
Proof.
  induction reads as [|r reads IH]; intros acc message n H;
    cbn [request_loop] in H.
  - destruct (negb _); discriminate.
  - destruct (negb _); [discriminate|].
    destruct r as [|buffer]; [discriminate|]. cbn [received].
    set (start := length acc - (if (length acc <? 3)%nat
                                then length acc else 3)) in *.
    destruct (strstr (cstr (skipn start (acc ++ buffer))) CRLFCRLF)
      as [k|] eqn:Hk.
    + destruct (strstr (cstr (firstn (start + k + 2) (acc ++ buffer))) CRLF);
        [|discriminate].
      destruct (_ >? _)%Z; [discriminate|].
      destruct (negb _); [discriminate|].
      destruct (_ >? _)%Z; [discriminate|].
      injection H as <- <-.
      pose proof (prefixb_through_cstr _ _ _ Hk) as Hp.
      rewrite skipn_skipn in Hp.
      apply prefixb_split_at in Hp. rewrite skipn_skipn in Hp.
      change (length CRLFCRLF) with 4 in Hp.
      replace (k + start) with (start + k) in Hp by lia.
      assert (Hlen : start + k + 4 <= length (acc ++ buffer)).
      { pose proof (strstr_bound _ _ _ Hk) as Hb.
        pose proof (cstr_length (skipn start (acc ++ buffer))) as Hc.
        rewrite length_skipn in Hc. simpl in Hb. lia. }
      assert (Hcut : firstn (start + k + 2) (acc ++ buffer)
                     = firstn (start + k) (acc ++ buffer) ++ CRLF).
      { rewrite <- (firstn_skipn (start + k) (acc ++ buffer)) at 1.
        rewrite Hp, firstn_app, length_firstn.
        rewrite firstn_all2 by (rewrite length_firstn; lia).
        replace (start + k + 2 - Nat.min (start + k) (length (acc ++ buffer)))
          with 2 by lia.
        reflexivity. }
      exists (firstn (start + k) (acc ++ buffer)),
             (skipn (4 + (start + k)) (acc ++ buffer) ++ received reads).
      split; [exact Hcut|].
      rewrite Hcut, app_assoc.
      rewrite <- (firstn_skipn (start + k) (acc ++ buffer)) at 1.
      rewrite Hp at 1. rewrite <- !app_assoc. reflexivity.
    + destruct (IH _ _ _ H) as (front & tail & Hm & Hr).
      exists front, tail. split; [exact Hm|].
      now rewrite app_assoc.
Qed.

(** X11.  The message [request] returns is a beginning of the bytes
    received: it ends with a CRLF and is followed, in the data, by the
    second CRLF of the blank line.  No byte is altered or dropped inside
    it. *)
Theorem request_returns_received_prefix :
  forall (reads : list read_result) (message : list ascii) (n : nat),
    request reads = Framed message n ->
    exists front tail,
      message = front ++ CRLF
      /\ received reads = message ++ CRLF ++ tail.
Proof.
  intros reads message n H. unfold request in H.
  destruct (request_loop_received reads [] message n H)
    as (front & tail & Hm & Hr).
  exists front, tail. split; [exact Hm | exact Hr].
Qed.

Lemma request_returns_received_prefix_witness :
  exists front tail,
    cs "GET / HTTP/1.1" ++ CRLF = front ++ CRLF
    /\ received [ReadBytes (cs "GET / HT");
                 ReadBytes (cs "TP/1.1" ++ CRLF ++ CRLF ++ cs "rest")]
       = (cs "GET / HTTP/1.1" ++ CRLF) ++ CRLF ++ tail.
Proof.
  apply (request_returns_received_prefix
           [ReadBytes (cs "GET / HT");
            ReadBytes (cs "TP/1.1" ++ CRLF ++ CRLF ++ cs "rest")]
           (cs "GET / HTTP/1.1" ++ CRLF) 16).
  vm_compute. reflexivity.
Defined.

(** ** [request]: the search window *)

Lemma strstr_skipn_none (h n : list ascii) (s : nat) :
  strstr h n = None -> strstr (skipn s h) n = None.
Proof.
  intros H. pose proof (strstr_absent _ _ H) as Ha.
  apply strstr_none. intros j _. rewrite skipn_skipn.
  destruct (Nat.le_gt_cases (j + s) (length h)) as [Hle|Hgt].
  - now apply Ha.
  - rewrite skipn_all2 by lia. rewrite <- (skipn_all h). now apply Ha.
Qed.

Lemma strstr_skipn_some (h n : list ascii) (s i : nat) :
  strstr h n = Some i -> s <= i -> strstr (skipn s h) n = Some (i - s).
Proof.
  intros H Hs. destruct (strstr_found _ _ _ H) as [Hp Hb].
  pose proof (strstr_bound _ _ _ H) as Hlen.
  apply strstr_first.
  - rewrite length_skipn. lia.
  - rewrite skipn_skipn. now replace (i - s + s) with i by lia.
  - intros j Hj. rewrite skipn_skipn. apply Hb. lia.
Qed.

(** An occurrence that appears when text is appended reaches into the
    appended text. *)
Lemma strstr_app_late (a b n : list ascii) (i : nat) :
  strstr a n = None -> strstr (a ++ b) n = Some i -> length a < i + length n.
Proof.
  intros Ha H. destruct (Nat.lt_ge_cases (length a) (i + length n))
    as [Hlt|Hge]; [exact Hlt|exfalso].
  destruct (strstr_found _ _ _ H) as [Hp _].
  rewrite skipn_app in Hp. replace (i - length a) with 0 in Hp by lia.
  cbn [skipn] in Hp.
  rewrite prefixb_app_long in Hp by (rewrite length_skipn; lia).
  rewrite (strstr_absent _ _ Ha) in Hp by lia. discriminate.
Qed.

Lemma firstn_within (a b : list ascii) (n : nat) :
  n <= length a -> firstn n (a ++ b) = firstn n a.
Proof.
  intros H. rewrite firstn_app. replace (n - length a) with 0 by lia.
  cbn. apply app_nil_r.
Qed.

Lemma request_loop_chunks (chunks : list (list ascii)) :
  forall (acc : list ascii) (i : nat),
    ~ In NUL (acc ++ concat chunks) ->
    strstr acc CRLFCRLF = None ->
    strstr (acc ++ concat chunks) CRLFCRLF = Some i ->
    (Z.of_nat (length (acc ++ concat chunks)) < header_limit)%Z ->
    request_loop (map ReadBytes chunks) acc
    = check_trimmed (firstn (i + 2) (acc ++ concat chunks)).
Proof.
  induction chunks as [|b chunks IH]; intros acc i Hnul Hacc Hi Hlim.
  - cbn [concat] in Hi. rewrite app_nil_r in Hi. congruence.
  - cbn [concat] in *. cbn [map request_loop].
    replace (Z.of_nat (length acc) <? header_limit)%Z with true
      by (symmetry; apply Z.ltb_lt; rewrite length_app in Hlim; lia).
    cbn [negb].
    set (start := length acc - (if (length acc <? 3)%nat
                                then length acc else 3)).
    assert (Hclean : cstr (skipn start (acc ++ b)) = skipn start (acc ++ b)).
    { apply cstr_clean. intros F. apply Hnul. rewrite app_assoc.
      apply in_or_app. left.
      now apply (In_firstn_skipn _ _ (length (acc ++ b)) start);
        rewrite firstn_all2 by (rewrite length_skipn; lia). }
    rewrite Hclean.
    destruct (strstr (acc ++ b) CRLFCRLF) as [i'|] eqn:Hab.
    + assert (Hii : i' = i).
      { pose proof (strstr_app _ _ (concat chunks) _ Hab) as E.
        rewrite <- app_assoc in E. congruence. }
      subst i'.
      pose proof (strstr_app_late _ _ _ _ Hacc Hab) as Hlate.
      simpl in Hlate.
      assert (Hstart : start <= i).
      { unfold start. destruct (Nat.ltb_spec (length acc) 3); lia. }
      rewrite (strstr_skipn_some _ _ _ _ Hab Hstart).
      replace (start + (i - start) + 2) with (i + 2) by lia.
      pose proof (strstr_bound _ _ _ Hab) as Hb. simpl in Hb.
      rewrite app_assoc, (firstn_within (acc ++ b) (concat chunks)) by lia.
      unfold check_trimmed.
      assert (Hl : length (firstn (i + 2) (acc ++ b)) = i + 2)
        by (rewrite length_firstn; lia).
      now rewrite Hl.
    + rewrite (strstr_skipn_none _ _ start Hab).
      rewrite app_assoc in *. now apply IH.
Qed.

(** X12.  How the bytes are split into reads does not matter: for data
    without NUL bytes, shorter than the total limit and holding a blank
    line, [request] decides as if the message trimmed after the first
    CRLF of the first blank line had been checked on its own, even when
    the blank line straddles two or more reads. *)
Theorem request_ignores_chunking :
  forall (chunks : list (list ascii)) (i : nat),
    ~ In NUL (concat chunks) ->
    strstr (concat chunks) CRLFCRLF = Some i ->
    (Z.of_nat (length (concat chunks)) < header_limit)%Z ->
    request (map ReadBytes chunks)
    = check_trimmed (firstn (i + 2) (concat chunks)).
Proof.
  intros chunks i Hnul Hi Hlim. unfold request.
  pose proof (request_loop_chunks chunks [] i) as H. cbn [app] in H.
  apply H; [exact Hnul | reflexivity | exact Hi | exact Hlim].
Qed.

Lemma request_ignores_chunking_witness :
  request (map ReadBytes
             [cs "GET / HTTP/1.1" ++ [CR]; [LF; CR]; [LF]; cs "data"])
  = check_trimmed
      (firstn (14 + 2)
         (concat [cs "GET / HTTP/1.1" ++ [CR]; [LF; CR]; [LF]; cs "data"])).
Proof.
  apply (request_ignores_chunking
           [cs "GET / HTTP/1.1" ++ [CR]; [LF; CR]; [LF]; cs "data"] 14).
  - apply not_In_via_strchr. vm_compute. reflexivity.
  - vm_compute. reflexivity.
  - vm_compute. reflexivity.
Defined.

(** ** Static files, index files and listings *)



(** X14.  For an existing directory requested with a trailing slash,
    [index.php] inside it is run by the interpreter when it exists, else
    [index.html] is transferred as [text/html] when it exists, else the
    directory is listed; the name of the directory, dotted or not, has no
    part in the choice. *)
Theorem directory_index_order :
  forall (w : World) (abs_path query front : list ascii),
    cstr abs_path = front ++ cs "/" ->
    access_F w (resolved_path w abs_path) = true ->
    is_directory w (resolved_path w abs_path) = true ->
    (access_F w (resolved_path w abs_path ++ cs "/index.php") = true ->
     resolve w abs_path query
     = interpret w (resolved_path w abs_path ++ cs "/index.php") query)
    /\ (access_F w (resolved_path w abs_path ++ cs "/index.php") = false ->
        access_F w (resolved_path w abs_path ++ cs "/index.html") = true ->
        resolve w abs_path query
        = Done (transfer w (resolved_path w abs_path ++ cs "/index.html")
                  (cs "text/html")))
    /\ (access_F w (resolved_path w abs_path ++ cs "/index.php") = false ->
        access_F w (resolved_path w abs_path ++ cs "/index.html") = false ->
        resolve w abs_path query
        = Done (list_directory w (resolved_path w abs_path))).
Proof.
  intros w abs_path query front Hslash Hex Hdir.
  destruct (lookup_index_files (resolved_path w abs_path)) as [Hphp Hhtml].
  assert (E : resolve w abs_path query
              = match indexes w (resolved_path w abs_path) with
                | Some index => dispatch w index query
                | None => Done (list_directory w (resolved_path w abs_path))
                end).
  { rewrite resolve_decoded, Hex, Hdir, Hslash. cbn [negb].
    rewrite rev_app_distr. reflexivity. }
  rewrite E. unfold indexes, dispatch. repeat split.
  - intros ->. now rewrite Hphp.
  - intros -> ->. now rewrite Hhtml.
  - intros -> ->. reflexivity.
Qed.

Lemma directory_index_order_witness :
  resolve site (cs "/" ++ [NUL]) stale_buffer
  = Done (transfer site (resolved_path site (cs "/" ++ [NUL])
                           ++ cs "/index.html") (cs "text/html"))
  /\ resolve site (cs "/img/" ++ [NUL]) stale_buffer
     = Done (list_directory site (resolved_path site (cs "/img/" ++ [NUL]))).
Proof.
  split.
  - refine (proj1 (proj2 (directory_index_order site (cs "/" ++ [NUL])
              stale_buffer [] _ _ _)) _ _); vm_compute; reflexivity.
  - refine (proj2 (proj2 (directory_index_order site (cs "/img/" ++ [NUL])
              stale_buffer (cs "/img") _ _ _)) _ _); vm_compute; reflexivity.
Defined.

Lemma list_items_filter (namelist : list (list ascii)) :
  forall items,
    list_items namelist items
    = items ++ concat (map list_item (filter listed namelist)).
Proof.
  induction namelist as [|d_name namelist IH]; intros items.
  - cbn [list_items filter map concat]. now rewrite app_nil_r.
  - cbn [list_items filter]. unfold listed at 1.
    destruct (streq d_name (cs ".")); cbn [negb].
    + apply IH.
    + rewrite IH. cbn [map concat]. now rewrite <- app_assoc.
Qed.

(** X15.  The listing of a directory that can be read and opened is a 200
    response of type [text/html] whose list holds, in the order of
    [scandir], one item for every entry except [.]; the parent entry is
    kept; each item is the escaped name as link target and as link text,
    so no name can close the attribute or open a tag. *)
Theorem directory_listing_items :
  forall (w : World) (path : list ascii),
    access_RX w path = true ->
    opendir_ok w path = true ->
    sent (list_directory w path)
    = cs "HTTP/1.1 200 OK" ++ CRLF ++ cs "Content-Type: text/html" ++ CRLF
      ++ CRLF
      ++ cs "<html><head><title>" ++ skipn (length (root w)) path
      ++ cs "</title></head><body><h1>" ++ skipn (length (root w)) path
      ++ cs "</h1><ul>"
      ++ concat (map list_item (filter listed (scandir w path)))
      ++ cs "</ul></body></html>"
    /\ listed (cs ".") = false
    /\ listed (cs "..") = true
    /\ forall d_name,
         list_item d_name
         = cs "<li><a href=" ++ [DQUOTE] ++ htmlspecialchars d_name
           ++ [DQUOTE] ++ cs ">" ++ htmlspecialchars d_name ++ cs "</a></li>"
         /\ forall c, In c (htmlspecialchars d_name) -> markup c = false.
Proof.
  intros w path Hacc Hopen. split; [|split; [reflexivity|split;
    [reflexivity|]]].
  - unfold list_directory. rewrite Hacc, Hopen. cbn [negb].
    rewrite (sent_respond 200 (cs "OK")) by reflexivity.
    rewrite firstn_all, list_items_filter. cbn [app].
    rewrite <- !app_assoc. reflexivity.
  - intros d_name. split; [reflexivity|].
    intros c H. rewrite htmlspecialchars_flat_map in H.
    apply in_flat_map in H as (x & _ & Hx).
    pose proof (escape_clean x) as Hc.
    rewrite forallb_forall in Hc. specialize (Hc _ Hx).
    now apply negb_true_iff in Hc.
Qed.

Lemma directory_listing_items_witness :
  sent (list_directory site (cs "/srv/www/img/"))
  = cs "HTTP/1.1 200 OK" ++ CRLF ++ cs "Content-Type: text/html" ++ CRLF
    ++ CRLF
    ++ cs "<html><head><title>" ++ skipn (length (root site)) (cs "/srv/www/img/")
    ++ cs "</title></head><body><h1>"
    ++ skipn (length (root site)) (cs "/srv/www/img/")
    ++ cs "</h1><ul>"
    ++ concat (map list_item
                 (filter listed (scandir site (cs "/srv/www/img/"))))
    ++ cs "</ul></body></html>".
Proof.
  refine (proj1 (directory_listing_items site (cs "/srv/www/img/") _ _));
    vm_compute; reflexivity.
Defined.

(** ** From the bytes of a connection to the resolution of the request *)

Lemma prefixb_longer (a b s : list ascii) :
  prefixb (a ++ b) s = true -> prefixb a s = true.
Proof.
  revert s; induction a as [|x a IH]; intros s H; [reflexivity|].
  destruct s as [|y s]; simpl in *; [discriminate|].
  apply andb_true_iff in H as [-> H]. now apply IH.
Qed.

Lemma scan_fields_end (fuel : nat) : scan_fields fuel [] = true.
Proof. destruct fuel; reflexivity. Qed.

(** X16.  A request without header fields, [GET], target, [HTTP/1.1],
    CRLF and the blank line, possibly followed by more bytes, goes through
    framing and parsing whatever the reads it arrives in: the connection
    logs the request line and is answered by the resolution of the stored
    path, which is the target up to its first question mark. *)
Theorem connection_reaches_resolution :
  forall (w : World) (chunks : list (list ascii))
         (target tail abs0 q0 : list ascii),
    concat chunks
    = (cs "GET " ++ target ++ cs " HTTP/1.1" ++ CRLF) ++ CRLF ++ tail ->
    prefixb (cs "/") target = true ->
    ~ In DQUOTE target ->
    ~ In NUL target ->
    strstr target CRLF = None ->
    ~ In NUL tail ->
    (Z.of_nat (length (concat chunks)) < header_limit)%Z ->
    (Z.of_nat (length target) + 15 <= LimitRequestLine)%Z ->
    length target < length abs0 ->
    length target < length q0 ->
    exists a q,
      cstr a = path_part target
      /\ match query_part target with
         | Some text => cstr q = text ++ cs " "
         | None => q = q0
         end
      /\ connection w (map ReadBytes chunks) abs0 q0
         = Some (after [Log (cs "GET " ++ target ++ cs " HTTP/1.1" ++ CRLF)]
                   (resolve w a q)).
Proof.
  intros w chunks target tail abs0 q0 Hdata Hslash Hquote Hnul Hcrlf
         Htail Hlim Hline Ha Hq.
  set (line := cs "GET " ++ target ++ cs " HTTP/1.1" ++ CRLF) in *.
  assert (Hlen : length line = length target + 15).
  { unfold line. rewrite !length_app. simpl. lia. }
  assert (Hfirst : strstr line CRLF = Some (4 + length target + 9))
    by (now apply strstr_request_line).
  assert (Hclean : ~ In NUL line).
  { unfold line. rewrite !in_app_iff. intros [F|[F|[F|F]]]; [|tauto| |];
      simpl in F; repeat (destruct F as [F|F]; [discriminate F|]);
      destruct F. }
  destruct (parse_request_line_returns target abs0 q0 Hslash Hquote Hnul
              Hcrlf Ha Hq) as (_ & H2 & H3 & a & q & Hp).
  fold line in Hp, H2, H3.
  assert (Hstored : cstr a = path_part target
                    /\ match query_part target with
                       | Some text => cstr q = text ++ cs " "
                       | None => q = q0
                       end).
  { destruct (parse_accepts _ _ _ _ _ Hclean Hp)
      as (k & _ & Hk & _ & Hpath & Hquery).
    rewrite H2 in Hk. injection Hk as Hk.
    replace k with (length target) in * by lia.
    rewrite H3 in *. now split. }
  destruct Hstored as [Hpath Hquery].
  exists a, q. split; [exact Hpath|]. split; [exact Hquery|].
  (* framing *)
  assert (Hblank : strstr (concat chunks) CRLFCRLF
                   = Some (4 + length target + 9)).
  { rewrite Hdata.
    pose proof (strstr_app _ _ (CRLF ++ tail) _ Hfirst) as Hall.
    destruct (strstr_found _ _ _ Hall) as [_ Hbefore].
    apply strstr_first.
    - rewrite length_app. lia.
    - unfold line.
      replace (4 + length target + 9)
        with (length (cs "GET " ++ target ++ cs " HTTP/1.1") + 0)
        by (rewrite !length_app; simpl; lia).
      replace ((cs "GET " ++ target ++ cs " HTTP/1.1" ++ CRLF) ++ CRLF ++ tail)
        with ((cs "GET " ++ target ++ cs " HTTP/1.1")
                ++ CRLF ++ CRLF ++ tail)
        by (now rewrite <- !app_assoc).
      rewrite skipn_past. reflexivity.
    - intros j Hj. specialize (Hbefore j Hj).
      destruct (prefixb CRLFCRLF (skipn j (line ++ CRLF ++ tail))) eqn:E;
        [|reflexivity].
      apply (prefixb_longer CRLF CRLF) in E. congruence. }
  assert (Hreq : request (map ReadBytes chunks) = Framed line (length line)).
  { unfold request.
    pose proof (request_loop_chunks chunks [] (4 + length target + 9)) as Hr.
    cbn [app] in Hr. rewrite Hr; [|clear Hr|reflexivity|exact Hblank|exact Hlim].
    2:{ rewrite Hdata, !in_app_iff. intros [F|[F|F]]; [tauto| |tauto].
        simpl in F. repeat (destruct F as [F|F]; [discriminate F|]).
        destruct F. }
    rewrite Hdata.
    replace (4 + length target + 9 + 2) with (length line) by lia.
    rewrite firstn_exact. unfold check_trimmed.
    rewrite (cstr_clean line Hclean), Hfirst.
    replace (Z.of_nat (4 + length target + 9) + 2 >? LimitRequestLine)%Z
      with false by (symmetry; rewrite Z.gtb_ltb; apply Z.ltb_ge; lia).
    replace (4 + length target + 9 + 2) with (length line) by lia.
    rewrite skipn_all. cbn [cstr]. rewrite scan_fields_end. reflexivity. }
  unfold connection. rewrite Hreq. f_equal.
  unfold serve. rewrite (cstr_clean line Hclean), Hfirst.
  replace (4 + length target + 9 + 2) with (length line) by lia.
  rewrite firstn_all, Hp. reflexivity.
Qed.

Lemma connection_reaches_resolution_witness :
  exists a q,
    cstr a = path_part (cs "/index.html")
    /\ match query_part (cs "/index.html") with
       | Some text => cstr q = text ++ cs " "
       | None => q = stale_buffer
       end
    /\ connection site
         (map ReadBytes
            [cs "GET /ind"; cs "ex.html HTTP/1.1" ++ CRLF ++ [CR]; [LF]])
         blank_buffer stale_buffer
       = Some (after [Log (cs "GET " ++ cs "/index.html" ++ cs " HTTP/1.1"
                             ++ CRLF)]
                 (resolve site a q)).
Proof.
  apply (connection_reaches_resolution site
           [cs "GET /ind"; cs "ex.html HTTP/1.1" ++ CRLF ++ [CR]; [LF]]
           (cs "/index.html") [] blank_buffer stale_buffer);
    try (apply not_In_via_strchr); try (apply Nat.ltb_lt);
    try (vm_compute; reflexivity).
  vm_compute. discriminate.
Defined.

(** ** [request]: requests that never end *)

Lemma strstr_prefix_none (a b n : list ascii) :
  strstr (a ++ b) n = None -> strstr a n = None.
Proof.
  intros H. destruct (strstr a n) as [i|] eqn:E; [|reflexivity].
  rewrite (strstr_app _ _ b _ E) in H. discriminate.
Qed.

Lemma request_loop_no_blank_line (chunks : list (list ascii)) :
  forall (acc : list ascii) (rest : list read_result),
    strstr (acc ++ concat chunks) CRLFCRLF = None ->
    request_loop (map ReadBytes chunks ++ rest) acc = Rejected
    \/ request_loop (map ReadBytes chunks ++ rest) acc
       = request_loop rest (acc ++ concat chunks).
Proof.
  induction chunks as [|b chunks IH]; intros acc rest H.
  - right. cbn [map concat app]. now rewrite app_nil_r.
  - cbn [map concat app request_loop] in *.
    destruct (negb _); [now left|].
    rewrite app_assoc in H.
    pose proof (strstr_prefix_none _ _ _ H) as Hab.
    set (start := length acc - (if (length acc <? 3)%nat
                                then length acc else 3)).
    pose proof (strstr_skipn_none _ _ start Hab) as Hwin.
    destruct (cstr_prefix (skipn start (acc ++ b))) as [r Hr].
    rewrite Hr in Hwin. rewrite (strstr_prefix_none _ _ _ Hwin).
    destruct (IH (acc ++ b) rest H) as [E|E]; [now left|right].
    now rewrite E, <- app_assoc.
Qed.

(** X17.  As long as the bytes received hold no blank line, no request is
    framed: a read error, or a total that has reached the size limit,
    makes [request] return false, whatever was received before and
    whatever would come after. *)
Theorem request_without_blank_line_rejected :
  forall (chunks : list (list ascii)) (rest : list read_result),
    strstr (concat chunks) CRLFCRLF = None ->
    (exists rest', rest = ReadError :: rest')
    \/ (header_limit <= Z.of_nat (length (concat chunks)))%Z ->
    request (map ReadBytes chunks ++ rest) = Rejected.
Proof.
  intros chunks rest Hnone Hend. unfold request.
  destruct (request_loop_no_blank_line chunks [] rest Hnone) as [E|E];
    [exact E|].
  rewrite E. cbn [app].
  destruct Hend as [[rest' ->]|Hbig].
  - cbn [request_loop]. now destruct (negb _).
  - destruct rest as [|r rest]; cbn [request_loop];
      replace (Z.of_nat (length (concat chunks)) <? header_limit)%Z
        with false by (symmetry; apply Z.ltb_ge; lia);
      reflexivity.
Qed.

Lemma request_without_blank_line_rejected_witness :
  request (map ReadBytes [cs "GET / HTTP/1.1" ++ CRLF; cs "Host: a" ++ CRLF]
             ++ [ReadError; ReadBytes CRLF])
  = Rejected.
Proof.
  apply (request_without_blank_line_rejected
           [cs "GET / HTTP/1.1" ++ CRLF; cs "Host: a" ++ CRLF]
           [ReadError; ReadBytes CRLF]).
  - vm_compute. reflexivity.
  - left. now exists [ReadBytes CRLF].
Defined.
